(** * xy-pad release tooling: [scripts/release.py] and [scripts/reapack_publish.py]

    A shallow embedding of the two helper scripts and the properties of
    their parsing, selection and stamping logic.

    Conventions of the embedding.
    - A Python [str] is a Rocq [string]; a Rocq [ascii] stands for the code
      point of the same number, so the development covers the texts whose
      code points are below 256.  On that range the character classes of
      [str.isspace], of [\s], [\d], [\w] and the case mapping of
      [str.lower] are the tables given in [Module Chr].
    - Python integers are [N].
    - A raised exception is the [Raise] constructor of [result]; the
      exception classes are the constructors of [exn].
    - The file system is a finite map from path strings to file contents
      together with a finite set of directory paths. *)

From Stdlib Require Import String Ascii List NArith Lia Bool DecimalString Permutation.
From Stdlib Require DecimalFacts DecimalN Sorted.
From stdpp Require Import gmap strings.

Local Open Scope string_scope.

(** ** Exceptions and results *)

(** The messages of [ReleaseError], one constructor per [raise] site of
    release.py. *)
Inductive ReleaseError : Type :=
  | InvalidVersion (value : string)     (* "Invalid version (expected x.y.z): ..." *)
  | UnknownBumpLevel (level : string)   (* "Unknown bump level: ..." *)
  | NoPendingNotes                      (* "No pending release notes found." *)
  | EmptyCompiledNotes                  (* "Pending notes were found but compiled release notes are empty." *)
  | MissingChangelog (template_path : string). (* "Template missing --@changelog: ..." *)

(** The messages of [ReaPackPublishError] raised by [cmd_sync]. *)
Inductive ReaPackPublishError : Type :=
  | ReaPackFileNotFound (p : string)
  | FxDirNotFound (p : string)
  | ProvidesFileMissing (source src_path : string)
  | CommandFailed.

Inductive exn : Type :=
  | Release (e : ReleaseError)
  | Publish (e : ReaPackPublishError)
  | IndexError
  | KeyError (key : string)
  | FileNotFoundError (path : string)
  | IsADirectoryError (path : string).

Inductive result (A : Type) : Type :=
  | Ok (a : A)
  | Raise (e : exn).
Arguments Ok {A} a.
Arguments Raise {A} e.

(** Sequencing: the first exception raised ends the computation.  The
    notation [x ← r; k] is stdpp's, through the instance below. *)
#[global] Instance result_bind : MBind result := fun A B k r =>
  match r with
  | Ok a => k a
  | Raise e => Raise e
  end.

#[global] Instance result_ret : MRet result := fun A a => Ok a.


(** ** Character classes *)

Module Chr.

Definition code (c : ascii) : nat := nat_of_ascii c.

Definition between (lo hi : nat) (c : ascii) : bool :=
  (lo <=? code c)%nat && (code c <=? hi)%nat.

(** [str.isspace] and the class [\s]: TAB..CR, FS..US, SPACE, NEL, NBSP. *)
Definition is_space (c : ascii) : bool :=
  between 9 13 c || between 28 32 c || (code c =? 133)%nat || (code c =? 160)%nat.

(** The class [\d]: the decimal digits. *)
Definition is_digit (c : ascii) : bool := between 48 57 c.

(** The class [[1-9]]. *)
Definition is_digit19 (c : ascii) : bool := between 49 57 c.

(** The class [\w]: alphanumerics and the underscore. *)
Definition is_word (c : ascii) : bool :=
  between 48 57 c || between 65 90 c || between 97 122 c || (code c =? 95)%nat
  || (code c =? 170)%nat || between 178 179 c || (code c =? 181)%nat
  || between 185 186 c || between 188 190 c
  || between 192 214 c || between 216 246 c || between 248 255 c.

(** [str.lower] on one character. *)
Definition lower (c : ascii) : ascii :=
  if between 65 90 c || between 192 214 c || between 216 222 c
  then ascii_of_nat (code c + 32)
  else c.

Definition eqb (a b : ascii) : bool := Ascii.eqb a b.

Definition newline : ascii := ascii_of_nat 10.
Definition cr : ascii := ascii_of_nat 13.

End Chr.

(** ** The methods of [str] used by the scripts *)

Module Str.

Definition nl : string := String Chr.newline "".

Fixpoint drop (n : nat) (s : string) : string :=
  match n, s with
  | O, _ => s
  | S n', String _ r => drop n' r
  | S _, "" => ""
  end.

(** [s.startswith(p)] *)
Fixpoint startswith (p s : string) : bool :=
  match p, s with
  | "", _ => true
  | String a p', String b s' => Chr.eqb a b && startswith p' s'
  | String _ _, "" => false
  end.

(** [s.endswith(p)] *)
Definition endswith (p s : string) : bool :=
  startswith (String.rev p) (String.rev s).

(** [sub in s] *)
Fixpoint contains (sub s : string) : bool :=
  startswith sub s ||
  match s with
  | "" => false
  | String _ r => contains sub r
  end.

(** [s.lstrip()] *)
Fixpoint lstrip (s : string) : string :=
  match s with
  | String c r => if Chr.is_space c then lstrip r else s
  | "" => ""
  end.

(** [s.rstrip()] *)
Fixpoint rstrip (s : string) : string :=
  match s with
  | "" => ""
  | String c r =>
      match rstrip r with
      | "" => if Chr.is_space c then "" else String c ""
      | r' => String c r'
      end
  end.

(** [s.strip()] *)
Definition strip (s : string) : string := lstrip (rstrip s).

(** [s.lstrip(c)] for a one-character set. *)
Fixpoint lstrip_char (c : ascii) (s : string) : string :=
  match s with
  | String a r => if Chr.eqb a c then lstrip_char c r else s
  | "" => ""
  end.

(** [s.rstrip(c)] for a one-character set. *)
Fixpoint rstrip_char (c : ascii) (s : string) : string :=
  match s with
  | "" => ""
  | String a r =>
      match rstrip_char c r with
      | "" => if Chr.eqb a c then "" else String a ""
      | r' => String a r'
      end
  end.

(** The longest prefix of non-blank characters. *)
Fixpoint word (s : string) : string :=
  match s with
  | String c r => if Chr.is_space c then "" else String c (word r)
  | "" => ""
  end.

(** [s.split()]: the maximal runs of non-blank characters. *)
Fixpoint split_ws (s : string) : list string :=
  match s with
  | "" => []
  | String c r =>
      if Chr.is_space c then split_ws r
      else
        match r with
        | "" => [String c ""]
        | String c' _ =>
            if Chr.is_space c' then String c "" :: split_ws r
            else
              match split_ws r with
              | t :: ts => String c t :: ts
              | [] => [String c ""]
              end
        end
  end.

(** [s.split(c)] for a one-character separator: never the empty list. *)
Fixpoint split_char (c : ascii) (s : string) : list string :=
  match s with
  | "" => [""]
  | String a r =>
      if Chr.eqb a c then "" :: split_char c r
      else
        match split_char c r with
        | t :: ts => String a t :: ts
        | [] => [String a ""]
        end
  end.

(** [s.split(c, 1)] when [c in s]: the text before and after the first
    occurrence; [None] when [c] does not occur. *)
Fixpoint split_once (c : ascii) (s : string) : option (string * string) :=
  match s with
  | "" => None
  | String a r =>
      if Chr.eqb a c then Some ("", r)
      else
        match split_once c r with
        | Some (l, r') => Some (String a l, r')
        | None => None
        end
  end.

(** [s.find(c)]: [None] stands for [-1]. *)
Fixpoint find (c : ascii) (s : string) : option nat :=
  match s with
  | "" => None
  | String a r =>
      if Chr.eqb a c then Some O
      else
        match find c r with
        | Some i => Some (S i)
        | None => None
        end
  end.

(** [sep.join(l)] *)
Fixpoint join (sep : string) (l : list string) : string :=
  match l with
  | [] => ""
  | [x] => x
  | x :: r => x +:+ sep +:+ join sep r
  end.

(** [s.lower()] *)
Fixpoint lower (s : string) : string :=
  match s with
  | "" => ""
  | String c r => String (Chr.lower c) (lower r)
  end.

(** [s.replace("\r\n", "\n")] *)
Fixpoint replace_crlf (s : string) : string :=
  match s with
  | "" => ""
  | String a r =>
      match r with
      | String b r' =>
          if Chr.eqb a Chr.cr && Chr.eqb b Chr.newline
          then String Chr.newline (replace_crlf r')
          else String a (replace_crlf r)
      | "" => String a ""
      end
  end.

(** The newline translation of a file opened for reading in text mode:
    [\r\n] and a lone [\r] become [\n]. *)
Fixpoint universal_newlines (s : string) : string :=
  match s with
  | "" => ""
  | String a r =>
      if Chr.eqb a Chr.cr then
        match r with
        | String b r' =>
            if Chr.eqb b Chr.newline
            then String Chr.newline (universal_newlines r')
            else String Chr.newline (universal_newlines r)
        | "" => String Chr.newline ""
        end
      else String a (universal_newlines r)
  end.

(** [s.replace(old, new, 1)] for a non-empty [old]. *)
Fixpoint replace_first (old new s : string) : string :=
  if startswith old s then new +:+ drop (String.length old) s
  else
    match s with
    | "" => ""
    | String c r => String c (replace_first old new r)
    end.

(** [int(s)] on a string of decimal digits. *)
Definition digit_val (c : ascii) : N := N.of_nat (Chr.code c - 48).

Fixpoint int_acc (acc : N) (s : string) : N :=
  match s with
  | "" => acc
  | String c r => int_acc (acc * 10 + digit_val c)%N r
  end.

Definition int (s : string) : N := int_acc 0%N s.

(** [str(n)] for a non-negative integer. *)
Definition of_N (n : N) : string := NilZero.string_of_uint (N.to_uint n).

End Str.

(** ** Paths and the file system *)

Module Fs.

(** The [/] operator of [pathlib]: an absolute right operand replaces the
    left one.  Paths are kept as written, without normalisation. *)
Definition join (a b : string) : string :=
  if Str.startswith "/" b then b else a +:+ "/" +:+ b.

(** The components of a path that [pathlib] keeps: empty and ["."]
    components are dropped. *)
Definition parts (p : string) : list string :=
  List.filter (fun c => negb (String.eqb c "" || String.eqb c "."))
              (Str.split_char "/" p).

(** [Path(p).name] *)
Definition name (p : string) : string := List.last (parts p) "".

(** The proper prefixes of [p] that end just before a ["/"], longest
    last: the directories [mkdir(parents=True)] creates for [p.parent]. *)
Fixpoint ancestors_go (seen : string) (p : string) : list string :=
  match p with
  | "" => []
  | String c r =>
      (if Chr.eqb c "/" && negb (String.eqb seen "") then [String.rev seen] else [])
      ++ ancestors_go (String c seen) r
  end.

Definition ancestors (p : string) : list string := ancestors_go "" p.

Record t : Type := mk {
  files : gmap string string;
  dirs : gset string
}.

(** [p.exists()] *)
Definition exists_ (fs : t) (p : string) : bool :=
  bool_decide (is_Some (files fs !! p)) || bool_decide (p ∈ dirs fs).

Definition is_dir (fs : t) (p : string) : bool := bool_decide (p ∈ dirs fs).

(** [p.read_text(encoding="utf-8")] *)
Definition read (fs : t) (p : string) : result string :=
  match files fs !! p with
  | Some content => Ok (Str.universal_newlines content)
  | None => if is_dir fs p then Raise (IsADirectoryError p)
            else Raise (FileNotFoundError p)
  end.

(** [p.parent.mkdir(parents=True, exist_ok=True)] *)
Definition mkdir_parents (fs : t) (p : string) : t :=
  mk (files fs) (dirs fs ∪ list_to_set (ancestors p)).

(** [p.write_text(content)] *)
Definition write (fs : t) (p content : string) : t :=
  mk (<[p := content]> (files fs)) (dirs fs).

(** [open(p, "a").write(content)] *)
Definition append (fs : t) (p content : string) : t :=
  mk (<[p := default "" (files fs !! p) +:+ content]> (files fs)) (dirs fs).

(** [p.unlink()] *)
Definition unlink (fs : t) (p : string) : t * result unit :=
  match files fs !! p with
  | Some _ => (mk (delete p (files fs)) (dirs fs), Ok tt)
  | None => (fs, if is_dir fs p then Raise (IsADirectoryError p)
                 else Raise (FileNotFoundError p))
  end.

(** The name [n] such that [p] is [d/n] with no further ["/"]. *)
Definition child_name (d p : string) : option string :=
  let pre := d +:+ "/" in
  if Str.startswith pre p then
    let n := Str.drop (String.length pre) p in
    if Str.contains "/" n || String.eqb n "" then None else Some n
  else None.

(** The pattern [*.md] on the entry [p] of the directory [d]. *)
Definition is_md_child (d p : string) : bool :=
  match child_name d p with
  | Some n => Str.endswith ".md" n
  | None => false
  end.

(** [d.glob("*.md")]: the entries of [d], files and directories, whose
    name ends in [.md], in the order the directory enumeration happens to
    deliver them. *)
Definition glob_md (fs : t) (d : string) : list string :=
  List.filter (is_md_child d)
              (map fst (map_to_list (files fs)) ++ elements (dirs fs)).

(** [shutil.copy2(src, dst)]: the content is copied as it is, into [dst]
    when that is a directory. *)
Definition copy2 (fs : t) (src dst : string) : t * result unit :=
  match files fs !! src with
  | Some content =>
      let dst' := if is_dir fs dst then join dst (name src) else dst in
      (write fs dst' content, Ok tt)
  | None => (fs, if is_dir fs src then Raise (IsADirectoryError src)
                 else Raise (FileNotFoundError src))
  end.

End Fs.

(** [sorted(...)] on strings: a stable insertion sort by code points.  The
    paths sorted by the scripts share their parent directory, where the
    order of [Path] values is the order of their names. *)
Fixpoint insert_by {A} (key : A -> string) (x : A) (l : list A) : list A :=
  match l with
  | [] => [x]
  | y :: r => if String.ltb (key x) (key y) then x :: y :: r
              else y :: insert_by key x r
  end.

Definition sorted_by {A} (key : A -> string) (l : list A) : list A :=
  fold_left (fun acc x => insert_by key x acc) l [].

(** [xs[0]] *)
Definition index0 {A} (xs : list A) : result A :=
  match xs with
  | x :: _ => Ok x
  | [] => Raise IndexError
  end.

(** ** scripts/release.py *)

Module release.

(** *** [SEMVER_RE]

    Three groups [0|[1-9]\d*] separated by [\.], between [^] and [$],
    matched from the start of the text.  Every choice of the backtracking matcher is forced: a
    segment that starts with [0] can only be the first alternative, and
    a run [\d*] cut short leaves a digit where [\.] or [$] is needed. *)

(** [\d*]: the longest run of digits and the text after it. *)
Fixpoint digits (s : string) : string * string :=
  match s with
  | String c r =>
      if Chr.is_digit c
      then let '(d, t) := digits r in (String c d, t)
      else ("", s)
  | "" => ("", "")
  end.

(** One group [0|[1-9]\d*] and the text after it. *)
Definition segment (s : string) : option (string * string) :=
  match s with
  | String c r =>
      if Chr.eqb c "0" then Some ("0", r)
      else if Chr.is_digit19 c
           then let '(d, t) := digits r in Some (String c d, t)
           else None
  | "" => None
  end.

(** [\.] *)
Definition dot (s : string) : option string :=
  match s with
  | String c r => if Chr.eqb c "." then Some r else None
  | "" => None
  end.

(** [$] without [re.MULTILINE]: at the end of the text, or before a
    newline that ends it. *)
Definition at_end (s : string) : bool :=
  String.eqb s "" || String.eqb s Str.nl.

(** [SEMVER_RE.match(value)]: the groups [major], [minor], [patch]. *)
Definition SEMVER_RE (value : string) : option (string * string * string) :=
  '(ma, s1) ← segment value;
  s2 ← dot s1;
  '(mi, s3) ← segment s2;
  s4 ← dot s3;
  '(pa, s5) ← segment s4;
  if at_end s5 then Some (ma, mi, pa) else None.

Module SemVer.

Record t : Type := mk { major : N; minor : N; patch : N }.

(** [SemVer.parse] *)
Definition parse (value : string) : result t :=
  let value := Str.lstrip_char "v" (Str.strip value) in
  match SEMVER_RE value with
  | None => Raise (Release (InvalidVersion value))
  | Some (ma, mi, pa) => Ok (mk (Str.int ma) (Str.int mi) (Str.int pa))
  end.

(** [SemVer.bump] *)
Definition bump (self : t) (level : string) : result t :=
  if String.eqb level "major" then Ok (mk (major self + 1) 0 0)
  else if String.eqb level "minor" then Ok (mk (major self) (minor self + 1) 0)
  else if String.eqb level "patch" then Ok (mk (major self) (minor self) (patch self + 1))
  else Raise (Release (UnknownBumpLevel level)).

(** [SemVer.__str__] *)
Definition str (self : t) : string :=
  Str.of_N (major self) +:+ "." +:+ Str.of_N (minor self) +:+ "."
    +:+ Str.of_N (patch self).

End SemVer.

Definition BUMP_PRIORITY : gmap string nat :=
  {[ "patch" := 0%nat; "minor" := 1%nat; "major" := 2%nat ]}.

(** [_read_text] *)
Definition _read_text (fs : Fs.t) (path : string) : result string :=
  content ← Fs.read fs path; Ok (Str.replace_crlf content).


(** The inner loop of [_discover_pending]: the first of [patch], [minor],
    [major] whose suffix the lower-cased name carries. *)
Definition bump_level_of (lower_name : string) : option string :=
  List.find (fun level => Str.endswith ("." +:+ level +:+ ".md") lower_name)
            ["patch"; "minor"; "major"].

(** The outer loop of [_discover_pending] over the sorted paths. *)
Fixpoint classify (paths : list string) : list (string * string) :=
  match paths with
  | [] => []
  | file_path :: rest =>
      match bump_level_of (Str.lower (Fs.name file_path)) with
      | None => classify rest
      | Some bump_level => (bump_level, file_path) :: classify rest
      end
  end.

(** [_discover_pending], on the enumeration [found] that
    [pending_dir.glob("*.md")] delivers. *)
Definition discover (dir_exists : bool) (found : list string)
  : list (string * string) :=
  if negb dir_exists then [] else classify (sorted_by id found).

Definition _discover_pending (fs : Fs.t) (pending_dir : string)
  : list (string * string) :=
  discover (Fs.exists_ fs pending_dir) (Fs.glob_md fs pending_dir).

(** [max(levels, key=lambda lvl: BUMP_PRIORITY[lvl])] after its first
    element: the first element of greatest key wins, and a level that is
    no key of the dictionary raises [KeyError]. *)
Fixpoint max_level (best : string) (best_key : nat) (levels : list string)
  : result string :=
  match levels with
  | [] => Ok best
  | lvl :: rest =>
      match BUMP_PRIORITY !! lvl with
      | None => Raise (KeyError lvl)
      | Some k => if (best_key <? k)%nat then max_level lvl k rest
                  else max_level best best_key rest
      end
  end.

(** [_select_bump_level] *)
Definition _select_bump_level (pending : list (string * string)) : result string :=
  match map fst pending with
  | [] => Raise (Release NoPendingNotes)
  | lvl :: rest =>
      match BUMP_PRIORITY !! lvl with
      | None => Raise (KeyError lvl)
      | Some k => max_level lvl k rest
      end
  end.

(** The loop of [_compile_release_notes]. *)
Fixpoint sections_of (fs : Fs.t) (paths : list string) : result (list string) :=
  match paths with
  | [] => Ok []
  | file_path :: rest =>
      text ← _read_text fs file_path;
      let body := Str.strip text in
      more ← sections_of fs rest;
      Ok (if String.eqb body "" then more else body :: more)
  end.

Definition separator : string :=
  Str.nl +:+ Str.nl +:+ "---" +:+ Str.nl +:+ Str.nl.

(** [_compile_release_notes] *)
Definition _compile_release_notes (fs : Fs.t) (pending : list (string * string))
  : result string :=
  sections ← sections_of fs (map snd (sorted_by (fun it => Fs.name (snd it)) pending));
  Ok (Str.rstrip (Str.join separator sections) +:+ Str.nl).

(** *** The version line: [re.sub(r"(?m)^--@version\s*$", repl, template)] *)

(** [\s*$] under [re.MULTILINE], greedy with backtracking: the length of
    the longest run of blanks that ends at the end of the text or just
    before a newline. *)
Fixpoint blanks_to_eol (s : string) : option nat :=
  match s with
  | "" => Some O
  | String c r =>
      if Chr.is_space c then
        match blanks_to_eol r with
        | Some k => Some (S k)
        | None => if Chr.eqb c Chr.newline then Some O else None
        end
      else None
  end.

Definition version_tag : string := "--@version".

(** The length of the match of [--@version\s*$] at the head of [s]. *)
Definition version_line_match (s : string) : option nat :=
  if Str.startswith version_tag s
  then k ← blanks_to_eol (Str.drop (String.length version_tag) s);
       Some (String.length version_tag + k)%nat
  else None.

(** The scan of [re.sub]: [bol] tells whether the position is at the
    start of a line ([^] under [re.MULTILINE]), and [skip] counts the
    characters of the current match still to be passed over. *)
Fixpoint sub_version_go (repl : string) (bol : bool) (skip : nat) (s : string)
  : string :=
  match s with
  | "" => ""
  | String c r =>
      let bol' := Chr.eqb c Chr.newline in
      match skip with
      | S n => sub_version_go repl bol' n r
      | O =>
          match (if bol then version_line_match s else None) with
          | Some (S n) => repl +:+ sub_version_go repl bol' n r
          | _ => String c (sub_version_go repl bol' O r)
          end
      end
  end.

Definition sub_version (version : SemVer.t) (template : string) : string :=
  sub_version_go (version_tag +:+ " " +:+ SemVer.str version) true O template.

Definition changelog_tag : string := "--@changelog".

(** The loop that builds [changelog_lines]. *)
Definition changelog_line (line : string) : string :=
  if String.eqb (Str.strip line) "" then "--  " else "--  " +:+ line.

Definition insertion (release_notes_md : string) : string :=
  Str.join Str.nl
    (map changelog_line
         (Str.split_char Chr.newline (Str.rstrip_char Chr.newline release_notes_md)))
  +:+ Str.nl.

(** The text transformation of [_stamp_reapack_file]. *)
Definition stamp (template_path template : string) (version : SemVer.t)
           (release_notes_md : string) : result string :=
  let out := sub_version version template in
  if negb (Str.contains changelog_tag out)
  then Raise (Release (MissingChangelog template_path))
  else
    Ok (Str.replace_first (changelog_tag +:+ Str.nl)
          (changelog_tag +:+ Str.nl +:+ insertion release_notes_md) out).


(** The arguments of the [prepare] subcommand. *)
Record Args : Type := mkArgs {
  repo_root : string;
  dry_run : bool;
  github_output : string;
  current_version_file : string;
  pending_dir : string;
  changes_out_dir : string;
  reapack_template : string;
  reapack_out : string
}.




(** The loop that removes the pending files: [FileNotFoundError] is
    passed over, any other exception ends the loop. *)
Fixpoint unlink_all (fs : Fs.t) (pending : list (string * string)) : Fs.t * result unit :=
  match pending with
  | [] => (fs, Ok tt)
  | (_, file_path) :: rest =>
      match Fs.unlink fs file_path with
      | (fs', Ok _) => unlink_all fs' rest
      | (fs', Raise (FileNotFoundError _)) => unlink_all fs' rest
      | (fs', Raise e) => (fs', Raise e)
      end
  end.


End release.

(** ** scripts/reapack_publish.py *)

Module reapack_publish.

Record ProvidesEntry : Type := mkEntry {
  source : string;
  target : string;
  has_url : bool
}.

(** The shared head [^\s*--\s*] of the three patterns: the text that
    follows it.  Both runs of blanks are taken whole: a shorter run leaves
    a blank where [--], [@] or the body is to start, and the body of
    [PROVIDES_LINE_RE] then meets the same newlines. *)
Definition after_comment_prefix (raw : string) : option string :=
  let s := Str.lstrip raw in
  if Str.startswith "--" s then Some (Str.lstrip (Str.drop 2 s)) else None.

(** The text before the first newline, and the text from that newline on. *)
Fixpoint upto_newline (s : string) : string * string :=
  match s with
  | "" => ("", "")
  | String c r =>
      if Chr.eqb c Chr.newline then ("", s)
      else let '(x, t) := upto_newline r in (String c x, t)
  end.

(** The tail of [PROVIDES_LINE_RE], the group [body] that is [.*] and
    then [$]: [.] stops at a
    newline and [$] wants the end of the text or its last newline. *)
Definition body_to_end (s : string) : option string :=
  let '(x, t) := upto_newline s in
  if release.at_end t then Some x else None.

(** [PROVIDES_LINE_RE.match(raw)]: the group [body]. *)
Definition PROVIDES_LINE_RE (raw : string) : option string :=
  s ← after_comment_prefix raw; body_to_end s.

(** [DIRECTIVE_LINE_RE.match(raw)] *)
Definition DIRECTIVE_LINE_RE (raw : string) : bool :=
  match after_comment_prefix raw with
  | Some s => Str.startswith "@" s
  | None => false
  end.

(** [\b] after a word character: the next character is no word
    character, or the text ends. *)
Definition word_boundary (s : string) : bool :=
  match s with
  | "" => true
  | String c _ => negb (Chr.is_word c)
  end.

(** [PROVIDES_START_RE.match(raw)] *)
Definition PROVIDES_START_RE (raw : string) : bool :=
  match after_comment_prefix raw with
  | Some s => Str.startswith "@provides" s
              && word_boundary (Str.drop (String.length "@provides") s)
  | None => false
  end.

(** [_read_text] *)
Definition _read_text (fs : Fs.t) (path : string) : result string :=
  content ← Fs.read fs path; Ok (Str.replace_crlf content).

(** The option flags: [if body.startswith("["): end = body.find("]"); if
    end != -1: body = body[end + 1 :].strip()]. *)
Definition strip_options (body : string) : string :=
  if Str.startswith "[" body then
    match Str.find "]" body with
    | Some end_ => Str.strip (Str.drop (end_ + 1) body)
    | None => body
    end
  else body.

Definition mentions_url (body : string) : bool :=
  Str.contains "http://" body || Str.contains "https://" body.

(** The body of the loop from [body = match.group("body").strip()] on:
    [Ok None] is a [continue], [Ok (Some e)] an [entries.append(e)]. *)
Definition entry_of_body (group_body : string) : result (option ProvidesEntry) :=
  let body := Str.strip group_body in
  if String.eqb body "" then Ok None
  else
    let body := strip_options body in
    let body := Str.strip body in
    match Str.split_once ">" body with
    | Some (lhs, rhs) =>
        source ← index0 (Str.split_ws (Str.strip lhs));
        target ← index0 (Str.split_ws (Str.strip rhs));
        Ok (Some (mkEntry source target (mentions_url body)))
    | None =>
        match Str.split_ws body with
        | [] => Ok None
        | part0 :: _ => Ok (Some (mkEntry part0 part0 (mentions_url body)))
        end
    end.

(** The state of the [for] loop of [_parse_provides]: running with its
    two variables, left through [break], or ended by an exception. *)
Inductive loop : Type :=
  | Running (in_provides : bool) (entries : list ProvidesEntry)
  | Broke (entries : list ProvidesEntry)
  | Raised (e : exn).

(** One iteration of the loop. *)
Definition step (st : loop) (raw : string) : loop :=
  match st with
  | Running in_provides entries =>
      if PROVIDES_START_RE raw then Running true entries
      else if negb in_provides then Running in_provides entries
      else if DIRECTIVE_LINE_RE raw then Broke entries
      else
        match PROVIDES_LINE_RE raw with
        | None => Running in_provides entries
        | Some group_body =>
            match entry_of_body group_body with
            | Raise e => Raised e
            | Ok None => Running in_provides entries
            | Ok (Some entry) => Running in_provides (entries ++ [entry])%list
            end
        end
  | _ => st
  end.

Definition run (st : loop) (lines : list string) : loop :=
  fold_left step lines st.

Definition finish (st : loop) : result (list ProvidesEntry) :=
  match st with
  | Running _ entries | Broke entries => Ok entries
  | Raised e => Raise e
  end.

(** [_parse_provides] on the text of the file. *)
Definition parse_text (text : string) : result (list ProvidesEntry) :=
  finish (run (Running false []) (Str.split_char Chr.newline text)).

(** [_parse_provides] *)
Definition _parse_provides (fs : Fs.t) (reapack_file : string)
  : result (list ProvidesEntry) :=
  text ← _read_text fs reapack_file; parse_text text.

(** [_copy_file] *)
Definition _copy_file (fs : Fs.t) (src dst : string) : Fs.t * result unit :=
  Fs.copy2 (Fs.mkdir_parents fs dst) src dst.

(** The state of the loop of [cmd_sync]: the file system, the copy
    instructions carried out so far as pairs of source and destination
    path, and the list [copied]. *)
Record sync_state : Type := mkSync {
  sync_fs : Fs.t;
  sync_copies : list (string * string);
  copied : list string
}.

(** One iteration of the loop of [cmd_sync]. *)
Definition sync_entry (repo_root fx_dir : string) (st : sync_state)
           (entry : ProvidesEntry) : sync_state * result unit :=
  if String.eqb (source entry) "." || String.eqb (target entry) "." then (st, Ok tt)
  else if has_url entry then (st, Ok tt)
  else if negb (Str.startswith "XY_Pad/" (source entry)) then (st, Ok tt)
  else
    let src_path := Fs.join repo_root (source entry) in
    if negb (Fs.exists_ (sync_fs st) src_path)
    then (st, Raise (Publish (ProvidesFileMissing (source entry) src_path)))
    else
      let dst_rel :=
        if Str.endswith "/" (target entry)
        then target entry +:+ Fs.name (source entry)
        else target entry in
      let dst_path := Fs.join fx_dir dst_rel in
      let copies := (sync_copies st ++ [(src_path, dst_path)])%list in
      match _copy_file (sync_fs st) src_path dst_path with
      | (fs', Raise e) => (mkSync fs' copies (copied st), Raise e)
      | (fs', Ok _) => (mkSync fs' copies (copied st ++ [dst_rel])%list, Ok tt)
      end.

(** The loop [for entry in entries] of [cmd_sync]. *)
Fixpoint sync_entries (repo_root fx_dir : string) (st : sync_state)
         (entries : list ProvidesEntry) : sync_state * result unit :=
  match entries with
  | [] => (st, Ok tt)
  | entry :: rest =>
      match sync_entry repo_root fx_dir st entry with
      | (st', Raise e) => (st', Raise e)
      | (st', Ok _) => sync_entries repo_root fx_dir st' rest
      end
  end.

(** The arguments of the [sync] subcommand. *)
Record Args : Type := mkArgs {
  repo_root : string;
  reascripts_root : string;
  reapack_file : string;
  run_index : bool
}.

(** [cmd_sync].  The indexer [reapack-index --no-commit] is an external
    program: [indexer] gives the file system it leaves and whether it
    exited with status 0.  The result is [len(copied)]. *)
Definition cmd_sync (indexer : Fs.t -> Fs.t * bool) (args : Args) (fs : Fs.t)
  : sync_state * result nat :=
  let st0 := mkSync fs [] [] in
  let reapack_path := Fs.join (repo_root args) (reapack_file args) in
  if negb (Fs.exists_ fs reapack_path)
  then (st0, Raise (Publish (ReaPackFileNotFound reapack_path)))
  else
    let fx_dir := Fs.join (reascripts_root args) "FX" in
    if negb (Fs.exists_ fs fx_dir)
    then (st0, Raise (Publish (FxDirNotFound fx_dir)))
    else
      match _copy_file fs reapack_path (Fs.join fx_dir "XY_Pad-ReaPack.lua") with
      | (fs1, Raise e) => (mkSync fs1 [] [], Raise e)
      | (fs1, Ok _) =>
          match _parse_provides fs1 reapack_path with
          | Raise e => (mkSync fs1 [] [], Raise e)
          | Ok entries =>
              match sync_entries (repo_root args) fx_dir (mkSync fs1 [] []) entries with
              | (st, Raise e) => (st, Raise e)
              | (st, Ok _) =>
                  if run_index args then
                    let '(fs2, ok) := indexer (sync_fs st) in
                    let st' := mkSync fs2 (sync_copies st) (copied st) in
                    if ok then (st', Ok (List.length (copied st)))
                    else (st', Raise (Publish CommandFailed))
                  else (st, Ok (List.length (copied st)))
              end
          end
      end.

End reapack_publish.

(** ** The specification's wording, for comparison with the code *)

Module spec.

Fixpoint all_digits (s : string) : bool :=
  match s with
  | "" => true
  | String c r => Chr.is_digit c && all_digits r
  end.

(** A segment is [0] or a digit string that does not start with [0]. *)
Definition strict_segment (s : string) : Prop :=
  s = "0" \/
  exists c r, s = String c r /\ Chr.is_digit19 c = true /\ all_digits r = true.

(** The strict three-segment grammar. *)
Definition strict_semver (s : string) : Prop :=
  exists a b c,
    strict_segment a /\ strict_segment b /\ strict_segment c /\
    s = a +:+ "." +:+ b +:+ "." +:+ c.



(** A line is exactly the tag. *)
Definition has_line (tag text : string) : Prop :=
  In tag (Str.split_char Chr.newline text).

(** Severity rank [patch < minor < major]. *)
Definition rank (level : string) : nat :=
  if String.eqb level "major" then 2
  else if String.eqb level "minor" then 1
  else 0.

Definition is_level (level : string) : Prop :=
  level = "patch" \/ level = "minor" \/ level = "major".

(** [n] characters [v] in front of [s]. *)
Fixpoint prefix_v (n : nat) (s : string) : string :=
  match n with
  | O => s
  | S n' => String "v" (prefix_v n' s)
  end.

(** The text does not begin with a blank. *)
Definition starts_blank (s : string) : bool :=
  match s with
  | String c _ => Chr.is_space c
  | "" => false
  end.

(** [sub] occurs in [s]. *)
Definition occurs (sub s : string) : Prop :=
  exists a b, s = a +:+ sub +:+ b.

End spec.


(** ** Auxiliary notions of the statements and proofs *)

(** The last character of a text. *)
Fixpoint last_char (s : string) : option ascii :=
  match s with
  | "" => None
  | String c r => match r with "" => Some c | _ => last_char r end
  end.

(** The text does not end in a blank. *)
Definition ends_clean (s : string) : Prop :=
  forall c, last_char s = Some c -> Chr.is_space c = false.

(** The next character, if any, is no digit. *)
Definition no_digit_ahead (s : string) : Prop :=
  match s with
  | "" => True
  | String c _ => Chr.is_digit c = false
  end.

(** The value [SemVer.parse] hands to [SEMVER_RE]. *)
Definition parsed_value (text : string) : string :=
  Str.lstrip_char "v" (Str.strip text).

(** The greatest severity rank among the levels. *)
Definition max_rank (levels : list string) : nat :=
  fold_right (fun level m => Nat.max (spec.rank level) m) 0%nat levels.

(** The character occurs in the text. *)
Fixpoint mem_char (c : ascii) (s : string) : bool :=
  match s with
  | "" => false
  | String a r => Chr.eqb a c || mem_char c r
  end.

(** The text whose lines are [lines]. *)
Definition document (lines : list string) : string := Str.join Str.nl lines.

(** A list of lines, none of which holds a newline. *)
Definition are_lines (lines : list string) : Prop :=
  Forall (fun line => mem_char Chr.newline line = false) lines.

(** The entries the loop of [cmd_sync] passes over before it looks at the
    file system. *)
Definition skipped (entry : reapack_publish.ProvidesEntry) : bool :=
  String.eqb (reapack_publish.source entry) "."
  || String.eqb (reapack_publish.target entry) "."
  || reapack_publish.has_url entry.

(** A non-empty text that neither begins nor ends with a blank. *)
Definition solid (sub : string) : Prop :=
  match sub with
  | "" => False
  | String a _ => Chr.is_space a = false /\ ends_clean sub
  end.

(** The text made of the given lines, each ended by a newline. *)
Fixpoint unlines (lines : list string) : string :=
  match lines with
  | [] => ""
  | line :: rest => line +:+ Str.nl +:+ unlines rest
  end.

(** [old] starts at no position of [a] in the text [a +:+ rest]. *)
Fixpoint first_at (old a rest : string) : Prop :=
  match a with
  | "" => True
  | String c a' =>
      Str.startswith old (String c (a' +:+ rest)) = false /\ first_at old a' rest
  end.



(** Every character of the text is a blank. *)
Fixpoint all_blank (s : string) : bool :=
  match s with
  | "" => true
  | String c r => Chr.is_space c && all_blank r
  end.

(** The text is empty or begins with a newline. *)
Definition at_eol (s : string) : Prop :=
  match s with
  | "" => True
  | String c _ => c = Chr.newline
  end.

(** The file system after [content] is appended to the file [out]. *)
Definition with_report (fs : Fs.t) (out content : string) : Fs.t :=
  Fs.append (Fs.mkdir_parents fs out) out content.

(** ** Further notions, for the properties beyond the claims *)

(** The number read off the digits [d] after the digits that gave [acc]. *)
Fixpoint uint_val (acc : N) (d : Decimal.uint) : N :=
  match d with
  | Decimal.Nil => acc
  | Decimal.D0 l => uint_val (acc * 10 + 0) l
  | Decimal.D1 l => uint_val (acc * 10 + 1) l
  | Decimal.D2 l => uint_val (acc * 10 + 2) l
  | Decimal.D3 l => uint_val (acc * 10 + 3) l
  | Decimal.D4 l => uint_val (acc * 10 + 4) l
  | Decimal.D5 l => uint_val (acc * 10 + 5) l
  | Decimal.D6 l => uint_val (acc * 10 + 6) l
  | Decimal.D7 l => uint_val (acc * 10 + 7) l
  | Decimal.D8 l => uint_val (acc * 10 + 8) l
  | Decimal.D9 l => uint_val (acc * 10 + 9) l
  end%N.


(** The order of versions: by major, then minor, then patch number. *)
Definition version_lt (a b : release.SemVer.t) : Prop :=
  let '(release.SemVer.mk a1 a2 a3) := a in
  let '(release.SemVer.mk b1 b2 b3) := b in
  (a1 < b1 \/ (a1 = b1 /\ (a2 < b2 \/ (a2 = b2 /\ a3 < b3))))%N.

(** The order [sorted] puts paths in. *)
Definition path_le (a b : string) : Prop := String.leb a b = true.

(** The pending notes are in the order of their paths. *)
Definition pending_sorted (pending : list (string * string)) : Prop :=
  Sorted.StronglySorted (fun a b => path_le (snd a) (snd b)) pending.

(** No line of the text is a bare version line; [bol] tells whether the
    text starts a line. *)
Fixpoint no_bare_version_line (bol : bool) (s : string) : Prop :=
  match s with
  | "" => True
  | String c r =>
      (bol = true -> release.version_line_match s = None) /\
      no_bare_version_line (Chr.eqb c Chr.newline) r
  end.

(** A token of [str.split()]: not empty and without blank. *)
Fixpoint no_blank (s : string) : bool :=
  match s with
  | "" => true
  | String c r => negb (Chr.is_space c) && no_blank r
  end.

Definition is_token (s : string) : Prop := s <> "" /\ no_blank s = true.

(** What every parsed entry satisfies. *)
Definition well_formed (entry : reapack_publish.ProvidesEntry) : Prop :=
  is_token (reapack_publish.source entry) /\
  is_token (reapack_publish.target entry) /\
  mem_char ">" (reapack_publish.source entry) = false.

(** The entry is the one the loop body makes of a line of [lines]. *)
Definition made_from (lines : list string) (entry : reapack_publish.ProvidesEntry) : Prop :=
  exists raw body,
    In raw lines /\
    reapack_publish.PROVIDES_LINE_RE raw = Some body /\
    reapack_publish.entry_of_body body = Ok (Some entry) /\
    (mem_char ">" raw = false ->
     reapack_publish.source entry = reapack_publish.target entry).

(** The entries the loop of [cmd_sync] goes on to copy. *)
Definition shipped (entry : reapack_publish.ProvidesEntry) : bool :=
  negb (skipped entry) && Str.startswith "XY_Pad/" (reapack_publish.source entry).

(** [dst_rel] of the loop of [cmd_sync]. *)
Definition dst_rel (entry : reapack_publish.ProvidesEntry) : string :=
  if Str.endswith "/" (reapack_publish.target entry)
  then reapack_publish.target entry +:+ Fs.name (reapack_publish.source entry)
  else reapack_publish.target entry.

(** The copy instruction of a shipped entry. *)
Definition copy_of (repo_root fx_dir : string) (entry : reapack_publish.ProvidesEntry)
  : string * string :=
  (Fs.join repo_root (reapack_publish.source entry), Fs.join fx_dir (dst_rel entry)).


(** * Properties *)

(** ** Strings *)

Section StrFacts.

Lemma app_cons c (s t : string) : String c s +:+ t = String c (s +:+ t).
Proof. reflexivity. Qed.

Lemma app_empty_l (s : string) : "" +:+ s = s.
Proof. reflexivity. Qed.

Lemma app_empty_r (s : string) : s +:+ "" = s.
Proof. induction s as [|c s IH]; [reflexivity|]. rewrite app_cons, IH. reflexivity. Qed.

Lemma app_assoc' (a b c : string) : (a +:+ b) +:+ c = a +:+ b +:+ c.
Proof. induction a as [|x a IH]; [reflexivity|]. rewrite !app_cons, IH. reflexivity. Qed.

Lemma chr_eqb_eq a b : Chr.eqb a b = true <-> a = b.
Proof. apply Ascii.eqb_eq. Qed.

Lemma chr_eqb_neq a b : Chr.eqb a b = false <-> a <> b.
Proof. apply Ascii.eqb_neq. Qed.

Lemma chr_eqb_refl a : Chr.eqb a a = true.
Proof. apply Ascii.eqb_refl. Qed.

Lemma digit_not_space c : Chr.is_digit c = true -> Chr.is_space c = false.
Proof. destruct c as [[] [] [] [] [] [] [] []]; vm_compute; congruence. Qed.

Lemma digit19_digit c : Chr.is_digit19 c = true -> Chr.is_digit c = true.
Proof. destruct c as [[] [] [] [] [] [] [] []]; vm_compute; congruence. Qed.

Lemma digit19_not_zero c : Chr.is_digit19 c = true -> Chr.eqb c "0" = false.
Proof. destruct c as [[] [] [] [] [] [] [] []]; vm_compute; congruence. Qed.

Lemma last_char_cons c r : r <> "" -> last_char (String c r) = last_char r.
Proof. destruct r; [congruence | reflexivity]. Qed.


Lemma rstrip_ends_clean s : ends_clean (Str.rstrip s).
Proof.
  unfold ends_clean. induction s as [|a s IH]; intros c; simpl; [discriminate|].
  destruct (Str.rstrip s) as [|b r] eqn:E.
  - destruct (Chr.is_space a) eqn:Ea; simpl; [discriminate|]. congruence.
  - rewrite last_char_cons by discriminate. apply IH.
Qed.

Lemma lstrip_ends_clean s : ends_clean s -> ends_clean (Str.lstrip s).
Proof.
  unfold ends_clean. induction s as [|a s IH]; intros H c; simpl; [discriminate|].
  destruct (Chr.is_space a) eqn:Ea; [|apply H].
  apply IH. intros c' Hc'. apply H.
  destruct s; [discriminate|]. exact Hc'.
Qed.


Lemma strip_ends_clean s : ends_clean (Str.strip s).
Proof. apply lstrip_ends_clean, rstrip_ends_clean. Qed.

(** [rstrip] keeps a first character that is no blank. *)
Lemma rstrip_cons_keep c r :
  Chr.is_space c = false -> exists r', Str.rstrip (String c r) = String c r'.
Proof.
  intros Hc. simpl. destruct (Str.rstrip r); [rewrite Hc|]; eauto.
Qed.

Lemma rstrip_cons_nonempty c r :
  Str.rstrip r <> "" -> Str.rstrip (String c r) = String c (Str.rstrip r).
Proof. intros H. simpl. destruct (Str.rstrip r); [congruence | reflexivity]. Qed.

End StrFacts.

(** ** [SEMVER_RE] against the strict grammar *)

Section SemVerGrammar.

Import release spec.


Lemma digits_complete d t :
  all_digits d = true -> no_digit_ahead t -> digits (d +:+ t) = (d, t).
Proof.
  intros Hd Ht. induction d as [|c d IH].
  - rewrite app_empty_l. destruct t as [|x t]; [reflexivity|].
    simpl in *. rewrite Ht. reflexivity.
  - simpl in Hd. apply andb_prop in Hd as [Hc Hd].
    rewrite app_cons. simpl. rewrite Hc, (IH Hd). reflexivity.
Qed.


Lemma segment_complete a t :
  strict_segment a -> no_digit_ahead t -> segment (a +:+ t) = Some (a, t).
Proof.
  intros [-> | (c & r & -> & Hc & Hr)] Ht.
  - reflexivity.
  - rewrite app_cons. simpl.
    rewrite (digit19_not_zero _ Hc), Hc, (digits_complete _ _ Hr Ht). reflexivity.
Qed.


Lemma dot_complete t : dot ("." +:+ t) = Some t.
Proof. reflexivity. Qed.



Lemma SEMVER_RE_complete a b c :
  strict_segment a -> strict_segment b -> strict_segment c ->
  SEMVER_RE (a +:+ "." +:+ b +:+ "." +:+ c) = Some (a, b, c).
Proof.
  intros Ha Hb Hc. unfold SEMVER_RE.
  rewrite (segment_complete a _ Ha) by reflexivity. simpl. rewrite app_empty_l.
  rewrite (segment_complete b _ Hb) by reflexivity. simpl. rewrite app_empty_l.
  rewrite <- (app_empty_r c) at 1.
  rewrite (segment_complete c "" Hc) by exact I. reflexivity.
Qed.






Lemma parse_strict text a b c :
  strict_segment a -> strict_segment b -> strict_segment c ->
  parsed_value text = a +:+ "." +:+ b +:+ "." +:+ c ->
  SemVer.parse text = Ok (SemVer.mk (Str.int a) (Str.int b) (Str.int c)).
Proof.
  intros Ha Hb Hc Hv. unfold SemVer.parse. fold (parsed_value text).
  rewrite Hv, SEMVER_RE_complete by assumption. reflexivity.
Qed.



End SemVerGrammar.

(** ** [SemVer.parse] *)

Section SemVerParse.

Import release spec.

Lemma rstrip_prefix_v n s : Str.rstrip (prefix_v n s) = prefix_v n (Str.rstrip s).
Proof.
  induction n as [|n IH]; [reflexivity|].
  cbn [prefix_v Str.rstrip]. rewrite IH.
  destruct (prefix_v n (Str.rstrip s)); reflexivity.
Qed.

Lemma lstrip_char_prefix_v n s :
  Str.lstrip_char "v" (prefix_v n s) = Str.lstrip_char "v" s.
Proof. induction n as [|n IH]; [reflexivity|]. exact IH. Qed.

Lemma lstrip_rstrip_no_blank s :
  starts_blank s = false -> Str.lstrip (Str.rstrip s) = Str.rstrip s.
Proof.
  destruct s as [|c r]; [reflexivity|]. cbn [starts_blank]. intros Hc.
  destruct (rstrip_cons_keep c r Hc) as [r' ->]. simpl. rewrite Hc. reflexivity.
Qed.

Lemma parsed_value_prefix_v n s :
  starts_blank s = false -> parsed_value (prefix_v n s) = parsed_value s.
Proof.
  intros Hs. unfold parsed_value, Str.strip.
  rewrite rstrip_prefix_v.
  destruct n as [|n]; [reflexivity|].
  rewrite (lstrip_rstrip_no_blank s Hs).
  change (Str.lstrip (prefix_v (S n) (Str.rstrip s))) with (prefix_v (S n) (Str.rstrip s)).
  apply lstrip_char_prefix_v.
Qed.

Lemma parse_by_value s t : parsed_value s = parsed_value t -> SemVer.parse s = SemVer.parse t.
Proof. unfold SemVer.parse, parsed_value. intros ->. reflexivity. Qed.



(** C10, as stated, fails: a text with a leading blank parses, and with a
    [v] in front of it the blank is no longer stripped. *)
Lemma parse_v_before_blank :
  SemVer.parse " 1.2.3" = Ok (SemVer.mk 1 2 3) /\
  SemVer.parse (prefix_v 1 " 1.2.3") = Raise (Release (InvalidVersion " 1.2.3")).
Proof. split; reflexivity. Qed.

(** C10, amended: for a text that does not begin with a blank and parses to
    a version, any number of additional [v] in front of it parses to the
    same version. *)
Theorem parse_strips_every_v (n : nat) (s : string) (ver : SemVer.t) :
  starts_blank s = false ->
  SemVer.parse s = Ok ver ->
  SemVer.parse (prefix_v n s) = Ok ver.
Proof.
  intros Hs Hp. rewrite <- Hp.
  apply parse_by_value, parsed_value_prefix_v, Hs.
Qed.

Lemma parse_strips_every_v_witness :
  SemVer.parse "vv1.2.3" = Ok (SemVer.mk 1 2 3).
Proof.
  apply (parse_strips_every_v 2 "1.2.3" (SemVer.mk 1 2 3)); reflexivity.
Defined.

End SemVerParse.

(** ** Bump-level selection *)

Section BumpLevel.

Import release spec.

Lemma priority_of_level level :
  is_level level -> BUMP_PRIORITY !! level = Some (rank level).
Proof. intros [-> | [-> | ->]]; reflexivity. Qed.

Lemma rank_inj a b : is_level a -> is_level b -> rank a = rank b -> a = b.
Proof.
  intros [-> | [-> | ->]] [-> | [-> | ->]]; vm_compute; congruence.
Qed.

Lemma max_level_spec levels :
  Forall is_level levels ->
  forall best, is_level best ->
  exists level,
    max_level best (rank best) levels = Ok level /\
    is_level level /\ In level (best :: levels) /\
    rank level = Nat.max (rank best) (max_rank levels).
Proof.
  induction 1 as [|lvl levels Hlvl Hall IH]; intros best Hbest.
  - exists best. simpl. repeat split; auto. lia.
  - cbn [max_level]. rewrite (priority_of_level _ Hlvl).
    destruct (rank best <? rank lvl)%nat eqn:E.
    + apply Nat.ltb_lt in E.
      destruct (IH lvl Hlvl) as (level & Hm & Hl & Hin & Hr).
      exists level. repeat split; auto.
      * destruct Hin as [<- | Hin]; [right; left; reflexivity | right; right; exact Hin].
      * cbn [max_rank fold_right]. fold (max_rank levels). lia.
    + apply Nat.ltb_ge in E.
      destruct (IH best Hbest) as (level & Hm & Hl & Hin & Hr).
      exists level. repeat split; auto.
      * destruct Hin as [<- | Hin]; [left; reflexivity | right; right; exact Hin].
      * cbn [max_rank fold_right]. fold (max_rank levels). lia.
Qed.

Lemma select_spec pending :
  Forall (fun it => is_level (fst it)) pending -> pending <> [] ->
  exists level,
    _select_bump_level pending = Ok level /\
    is_level level /\ In level (map fst pending) /\
    rank level = max_rank (map fst pending).
Proof.
  intros Hall Hne. destruct pending as [|[lvl p] rest]; [congruence|].
  apply Forall_cons_1 in Hall as [Hlvl Hrest]. cbn [fst] in Hlvl.
  unfold _select_bump_level. cbn [map fst].
  rewrite (priority_of_level _ Hlvl).
  apply max_level_spec; [|exact Hlvl].
  apply Forall_map. exact Hrest.
Qed.

Lemma max_rank_perm l l' : Permutation l l' -> max_rank l = max_rank l'.
Proof.
  induction 1 as [|x l l' _ IH|x y l|l l' l'' _ IH1 _ IH2].
  - reflexivity.
  - cbn [max_rank fold_right]. fold (max_rank l) (max_rank l'). lia.
  - cbn [max_rank fold_right]. fold (max_rank l). lia.
  - congruence.
Qed.

Lemma max_rank_ge level levels : In level levels -> (rank level <= max_rank levels)%nat.
Proof.
  induction levels as [|x levels IH]; [intros []|].
  cbn [max_rank fold_right]. fold (max_rank levels).
  intros [-> | H]; [lia|]. specialize (IH H). lia.
Qed.

Lemma select_perm pending pending' :
  Forall (fun it => is_level (fst it)) pending ->
  Permutation pending pending' ->
  _select_bump_level pending' = _select_bump_level pending.
Proof.
  intros Hall Hp.
  destruct pending as [|it rest].
  - apply Permutation_nil in Hp as ->. reflexivity.
  - assert (Hall' : Forall (fun it => is_level (fst it)) pending').
    { eapply Permutation_Forall; eassumption. }
    assert (Hne' : pending' <> []).
    { intros ->. apply Permutation_sym, Permutation_nil in Hp. discriminate Hp. }
    destruct (select_spec _ Hall ltac:(discriminate)) as (l1 & -> & Hl1 & _ & Hr1).
    destruct (select_spec _ Hall' Hne') as (l2 & -> & Hl2 & _ & Hr2).
    f_equal. apply rank_inj; auto.
    rewrite Hr1, Hr2. symmetry. apply max_rank_perm, Permutation_map, Hp.
Qed.

Lemma bump_level_of_level name level : bump_level_of name = Some level -> is_level level.
Proof.
  unfold bump_level_of. intros H. apply find_some in H as [Hin _].
  cbn in Hin. unfold is_level. intuition.
Qed.

Lemma classify_levels paths : Forall (fun it => is_level (fst it)) (classify paths).
Proof.
  induction paths as [|p paths IH]; cbn [classify]; [constructor|].
  destruct (bump_level_of _) as [level|] eqn:E; [|exact IH].
  constructor; [|exact IH]. eapply bump_level_of_level, E.
Qed.

Lemma discover_levels dir_exists found :
  Forall (fun it => is_level (fst it)) (discover dir_exists found).
Proof.
  unfold discover. destruct (negb dir_exists); [constructor | apply classify_levels].
Qed.

Lemma insert_by_perm {A} (key : A -> string) x l :
  Permutation (insert_by key x l) (x :: l).
Proof.
  induction l as [|y l IH]; cbn [insert_by]; [reflexivity|].
  destruct (String.ltb (key x) (key y)); [reflexivity|].
  rewrite IH. apply perm_swap.
Qed.

Lemma sorted_by_perm {A} (key : A -> string) l : Permutation (sorted_by key l) l.
Proof.
  unfold sorted_by.
  enough (H : forall acc, Permutation (fold_left (fun acc x => insert_by key x acc) l acc)
                                      (l ++ acc)%list).
  { rewrite H, app_nil_r. reflexivity. }
  induction l as [|x l IH]; intros acc; cbn [fold_left]; [reflexivity|].
  rewrite IH, insert_by_perm. cbn. symmetry. apply Permutation_middle.
Qed.

Lemma classify_perm l l' : Permutation l l' -> Permutation (classify l) (classify l').
Proof.
  induction 1 as [|x l l' _ IH|x y l|l l' l'' _ IH1 _ IH2]; cbn [classify].
  - reflexivity.
  - destruct (bump_level_of _); [constructor|]; exact IH.
  - destruct (bump_level_of (Str.lower (Fs.name y))),
             (bump_level_of (Str.lower (Fs.name x))); try reflexivity.
    apply perm_swap.
  - etransitivity; eassumption.
Qed.

Lemma discover_perm dir_exists found found' :
  Permutation found found' ->
  Permutation (discover dir_exists found) (discover dir_exists found').
Proof.
  intros H. unfold discover. destruct (negb dir_exists); [reflexivity|].
  apply classify_perm. rewrite !sorted_by_perm. exact H.
Qed.

(** C3: on the pending notes that discovery yields, selection raises the
    no-pending-notes error when there is none, and otherwise returns a
    level of the notes whose rank [patch < minor < major] is the greatest
    among them all.  The result is the same for every order in which the
    directory delivers the files and for every order of the pending list;
    the files [a.patch.md], [b.major.md], [c.minor.md] select [major]. *)
Theorem select_bump_level_max (dir_exists : bool) (found : list string) :
  let pending := discover dir_exists found in
  (pending = [] -> _select_bump_level pending = Raise (Release NoPendingNotes)) /\
  (pending <> [] ->
   exists level,
     _select_bump_level pending = Ok level /\
     In level (map fst pending) /\
     forall it, In it pending -> (rank (fst it) <= rank level)%nat) /\
  (forall found', Permutation found found' ->
     _select_bump_level (discover dir_exists found') = _select_bump_level pending) /\
  (forall pending', Permutation pending pending' ->
     _select_bump_level pending' = _select_bump_level pending) /\
  (forall listing,
     Permutation ["p/a.patch.md"; "p/b.major.md"; "p/c.minor.md"] listing ->
     _select_bump_level (discover true listing) = Ok "major").
Proof.
  intros pending. subst pending.
  pose proof (discover_levels dir_exists found) as Hall.
  split; [|split; [|split; [|split]]].
  - intros ->. reflexivity.
  - intros Hne. destruct (select_spec _ Hall Hne) as (level & Hs & _ & Hin & Hr).
    exists level. repeat split; auto.
    intros it Hit. rewrite Hr. apply max_rank_ge, in_map, Hit.
  - intros found' Hp. apply select_perm; [exact Hall|].
    apply discover_perm, Hp.
  - intros pending' Hp. apply select_perm; assumption.
  - intros listing Hp.
    rewrite (select_perm (discover true ["p/a.patch.md"; "p/b.major.md"; "p/c.minor.md"])).
    + reflexivity.
    + apply discover_levels.
    + apply discover_perm, Hp.
Qed.

End BumpLevel.

(** ** Lines and documents *)

Section Lines.

Lemma split_char_no_sep c x : mem_char c x = false -> Str.split_char c x = [x].
Proof.
  induction x as [|a x IH]; [reflexivity|]. cbn [mem_char Str.split_char].
  intros H. apply orb_false_elim in H as [Ha Hx].
  rewrite Ha, (IH Hx). reflexivity.
Qed.

Lemma split_char_app c x t :
  mem_char c x = false ->
  Str.split_char c (x +:+ String c t) = x :: Str.split_char c t.
Proof.
  induction x as [|a x IH]; intros H.
  - rewrite app_empty_l. cbn [Str.split_char]. rewrite chr_eqb_refl. reflexivity.
  - cbn [mem_char] in H. apply orb_false_elim in H as [Ha Hx].
    rewrite app_cons. cbn [Str.split_char]. rewrite Ha, (IH Hx). reflexivity.
Qed.

Lemma split_document lines :
  are_lines lines -> lines <> [] -> Str.split_char Chr.newline (document lines) = lines.
Proof.
  unfold document. induction 1 as [|x lines Hx Hall IH]; intros Hne; [congruence|].
  destruct lines as [|y lines].
  - apply split_char_no_sep, Hx.
  - change (Str.join Str.nl (x :: y :: lines))
      with (x +:+ String Chr.newline (Str.join Str.nl (y :: lines))).
    rewrite (split_char_app _ _ _ Hx), IH by discriminate. reflexivity.
Qed.

End Lines.

(** ** The provides block *)

Section Provides.

Import reapack_publish.

Lemma run_app st l1 l2 : run st (l1 ++ l2) = run (run st l1) l2.
Proof. apply fold_left_app. Qed.

Lemma run_broke entries lines : run (Broke entries) lines = Broke entries.
Proof. induction lines as [|x lines IH]; [reflexivity | exact IH]. Qed.

Lemma run_raised e lines : run (Raised e) lines = Raised e.
Proof. induction lines as [|x lines IH]; [reflexivity | exact IH]. Qed.

Lemma step_directive entries raw :
  DIRECTIVE_LINE_RE raw = true -> PROVIDES_START_RE raw = false ->
  step (Running true entries) raw = Broke entries.
Proof. intros Hd Hs. unfold step. rewrite Hs, Hd. reflexivity. Qed.

(** C1, as stated, fails: the entries of a second provides block, opened
    after a directive ended the first, are not returned. *)
Lemma second_block_is_not_parsed :
  let text := document ["-- @provides"; "--   XY_Pad/a.lua"; "-- @changelog";
                        "-- @provides"; "--   XY_Pad/b.lua"] in
  parse_text text = Ok [mkEntry "XY_Pad/a.lua" "XY_Pad/a.lua" false] /\
  parse_text text <> Ok [mkEntry "XY_Pad/a.lua" "XY_Pad/a.lua" false;
                         mkEntry "XY_Pad/b.lua" "XY_Pad/b.lua" false].
Proof. split; [reflexivity | discriminate]. Qed.

(** C1, amended: when a line matching another directive is met while a
    provides block is open, the loop is left: the entries collected so far
    are the result, whatever lines follow, a further provides block
    included. *)
Theorem directive_ends_parsing
        (before rest : list string) (raw : string) (entries : list ProvidesEntry) :
  are_lines (before ++ raw :: rest) ->
  run (Running false []) before = Running true entries ->
  DIRECTIVE_LINE_RE raw = true ->
  PROVIDES_START_RE raw = false ->
  parse_text (document (before ++ raw :: rest)) = Ok entries /\
  parse_text (document before) = Ok entries.
Proof.
  intros Hlines Hrun Hd Hs.
  assert (Hb : before <> []) by (intros ->; discriminate Hrun).
  unfold parse_text. split.
  - rewrite split_document by (auto; destruct before; discriminate).
    rewrite run_app, Hrun. cbn [run fold_left].
    rewrite (step_directive _ _ Hd Hs). fold (run (Broke entries) rest).
    rewrite run_broke. reflexivity.
  - rewrite split_document; [rewrite Hrun; reflexivity | | exact Hb].
    unfold are_lines in *. apply Forall_app in Hlines as [H _]. exact H.
Qed.

Lemma directive_ends_parsing_witness :
  parse_text (document (["-- @provides"; "--   XY_Pad/a.lua"]
                          ++ "-- @changelog" :: ["-- @provides"; "--   XY_Pad/b.lua"]))
    = Ok [mkEntry "XY_Pad/a.lua" "XY_Pad/a.lua" false] /\
  parse_text (document ["-- @provides"; "--   XY_Pad/a.lua"])
    = Ok [mkEntry "XY_Pad/a.lua" "XY_Pad/a.lua" false].
Proof.
  apply (directive_ends_parsing
           ["-- @provides"; "--   XY_Pad/a.lua"]
           ["-- @provides"; "--   XY_Pad/b.lua"]
           "-- @changelog"
           [mkEntry "XY_Pad/a.lua" "XY_Pad/a.lua" false]).
  - repeat constructor.
  - reflexivity.
  - reflexivity.
  - reflexivity.
Defined.

Lemma entry_of_body_raises body e : entry_of_body body = Raise e -> e = IndexError.
Proof.
  unfold entry_of_body. destruct (String.eqb _ _); [discriminate|].
  destruct (Str.split_once _ _) as [[lhs rhs]|].
  - destruct (Str.split_ws (Str.strip lhs)) as [|src ?]; cbn; [congruence|].
    destruct (Str.split_ws (Str.strip rhs)) as [|tgt ?]; cbn; [congruence | discriminate].
  - destruct (Str.split_ws _); discriminate.
Qed.

(** The only exception the loop can end in is [IndexError]. *)
Lemma parse_text_raises text e : parse_text text = Raise e -> e = IndexError.
Proof.
  unfold parse_text.
  assert (H : forall lines st,
             (forall e', st = Raised e' -> e' = IndexError) ->
             forall e', run st lines = Raised e' -> e' = IndexError).
  { induction lines as [|raw lines IH]; intros st Hst e' Hrun; [exact (Hst _ Hrun)|].
    apply (IH (step st raw)); [|exact Hrun].
    intros e2 Hstep. destruct st as [b entries|entries|e0]; cbn [step] in Hstep.
    - destruct (PROVIDES_START_RE raw); [discriminate|].
      destruct (negb b); [discriminate|].
      destruct (DIRECTIVE_LINE_RE raw); [discriminate|].
      destruct (PROVIDES_LINE_RE raw) as [body|]; [|discriminate].
      destruct (entry_of_body body) as [[entry|]|e0] eqn:E; try discriminate.
      inversion Hstep; subst. eapply entry_of_body_raises, E.
    - discriminate.
    - exact (Hst _ Hstep). }
  destruct (run _ _) as [b entries|entries|e0] eqn:E; cbn [finish]; try discriminate.
  intros Hr. inversion Hr; subst. eapply H; [|exact E]. discriminate.
Qed.

(** C2: a mapping line with nothing on one side of [>] makes
    [_parse_provides] raise [IndexError]; the line is not skipped, while a
    line left without any token by the option flags is. *)
Theorem empty_side_of_mapping_raises :
  parse_text (document ["-- @provides"; "--   > Tools/bar.lua"]) = Raise IndexError /\
  parse_text (document ["-- @provides"; "--   XY_Pad/bar.lua >"]) = Raise IndexError /\
  parse_text (document ["-- @provides"; "--   [main]"; "not a comment"]) = Ok [].
Proof. repeat split; reflexivity. Qed.

End Provides.

(** ** Where a text occurs *)

Section Contains.

Lemma startswith_lstrip_blank sub c r :
  solid sub -> Chr.is_space c = true -> Str.startswith sub (String c r) = false.
Proof.
  destruct sub as [|a sub]; [intros []|]. intros [Ha _] Hc. cbn [Str.startswith].
  destruct (Chr.eqb a c) eqn:E; [|reflexivity].
  apply chr_eqb_eq in E as ->. congruence.
Qed.

Lemma contains_lstrip sub s :
  solid sub -> Str.contains sub (Str.lstrip s) = Str.contains sub s.
Proof.
  intros Hsub. induction s as [|c r IH]; [reflexivity|].
  cbn [Str.lstrip]. destruct (Chr.is_space c) eqn:Ec; [|reflexivity].
  rewrite IH. cbn [Str.contains].
  rewrite (startswith_lstrip_blank _ _ _ Hsub Ec). reflexivity.
Qed.

Lemma solid_tail a b sub : solid (String a (String b sub)) -> ends_clean (String b sub).
Proof.
  intros [_ H] c Hc. apply H. rewrite last_char_cons by discriminate. exact Hc.
Qed.

Lemma startswith_empty sub : sub <> "" -> Str.startswith sub "" = false.
Proof. destruct sub; [congruence | reflexivity]. Qed.

Lemma startswith_rstrip sub s :
  sub <> "" -> ends_clean sub ->
  Str.startswith sub (Str.rstrip s) = Str.startswith sub s.
Proof.
  revert sub. induction s as [|c r IH]; intros sub Hne Hclean; [reflexivity|].
  destruct sub as [|a sub]; [congruence|].
  cbn [Str.rstrip]. destruct sub as [|b sub].
  - assert (Ha : Chr.is_space a = false) by (apply Hclean; reflexivity).
    destruct (Str.rstrip r) as [|x r'].
    + destruct (Chr.is_space c) eqn:Ec.
      * cbn [Str.startswith]. destruct (Chr.eqb a c) eqn:E; [|reflexivity].
        apply chr_eqb_eq in E as ->. congruence.
      * cbn [Str.startswith]. reflexivity.
    + cbn [Str.startswith]. reflexivity.
  - assert (Hsub : ends_clean (String b sub)).
    { intros x Hx. apply Hclean. rewrite last_char_cons by discriminate. exact Hx. }
    specialize (IH (String b sub) ltac:(discriminate) Hsub).
    destruct (Str.rstrip r) as [|x r'] eqn:Er.
    + rewrite startswith_empty in IH by discriminate.
      transitivity false.
      * destruct (Chr.is_space c); cbn [Str.startswith]; [reflexivity|].
        apply andb_false_r.
      * cbn [Str.startswith]. cbn [Str.startswith] in IH. rewrite <- IH.
        symmetry. apply andb_false_r.
    + cbn [Str.startswith]. cbn [Str.startswith] in IH. rewrite IH. reflexivity.
Qed.

Lemma contains_empty sub : sub <> "" -> Str.contains sub "" = false.
Proof. intros H. cbn [Str.contains]. rewrite startswith_empty by exact H. reflexivity. Qed.

Lemma contains_rstrip sub s :
  sub <> "" -> ends_clean sub ->
  Str.contains sub (Str.rstrip s) = Str.contains sub s.
Proof.
  intros Hne Hclean. induction s as [|c r IH]; [reflexivity|].
  pose proof (startswith_rstrip sub (String c r) Hne Hclean) as Hs.
  cbn [Str.rstrip] in *. destruct (Str.rstrip r) as [|x r'] eqn:Er.
  - rewrite contains_empty in IH by exact Hne.
    destruct (Chr.is_space c).
    + cbn [Str.contains]. rewrite <- Hs, <- IH.
      rewrite startswith_empty by exact Hne. reflexivity.
    + cbn [Str.contains]. rewrite <- Hs, <- IH.
      rewrite startswith_empty by exact Hne. reflexivity.
  - cbn [Str.contains]. cbn [Str.contains] in IH. rewrite Hs, IH. reflexivity.
Qed.

Lemma solid_nonempty sub : solid sub -> sub <> "".
Proof. destruct sub; [intros [] | discriminate]. Qed.

Lemma solid_clean sub : solid sub -> ends_clean sub.
Proof. destruct sub; [intros [] | intros [_ H]; exact H]. Qed.

Lemma contains_strip sub s : solid sub -> Str.contains sub (Str.strip s) = Str.contains sub s.
Proof.
  intros H. unfold Str.strip. rewrite (contains_lstrip _ _ H).
  apply contains_rstrip; [apply solid_nonempty | apply solid_clean]; exact H.
Qed.

Lemma contains_cons sub c s : Str.contains sub s = true -> Str.contains sub (String c s) = true.
Proof. intros H. cbn [Str.contains]. rewrite H. apply orb_true_r. Qed.

Lemma contains_drop sub n s : Str.contains sub (Str.drop n s) = true -> Str.contains sub s = true.
Proof.
  revert s. induction n as [|n IH]; intros s H; [exact H|].
  destruct s as [|c s]; [exact H|]. apply contains_cons, IH, H.
Qed.


End Contains.

(** ** URL detection *)

Section Urls.

Import reapack_publish.

Lemma solid_http : solid "http://".
Proof. split; [reflexivity|]. intros c H. inversion H. reflexivity. Qed.

Lemma solid_https : solid "https://".
Proof. split; [reflexivity|]. intros c H. inversion H. reflexivity. Qed.

Lemma mentions_url_strip s : mentions_url (Str.strip s) = mentions_url s.
Proof.
  unfold mentions_url.
  rewrite (contains_strip _ _ solid_http), (contains_strip _ _ solid_https). reflexivity.
Qed.

Lemma mentions_url_drop n s : mentions_url (Str.drop n s) = true -> mentions_url s = true.
Proof.
  unfold mentions_url. intros H. apply orb_prop in H as [H|H];
    apply contains_drop in H; rewrite H; auto using orb_true_r.
Qed.

Lemma mentions_url_options s : mentions_url (strip_options s) = true -> mentions_url s = true.
Proof.
  unfold strip_options. destruct (Str.startswith "[" s); [|auto].
  destruct (Str.find "]" s) as [i|]; [|auto].
  rewrite mentions_url_strip. apply mentions_url_drop.
Qed.

Lemma entry_has_url content entry :
  entry_of_body content = Ok (Some entry) ->
  has_url entry = mentions_url (Str.strip (strip_options (Str.strip content))).
Proof.
  unfold entry_of_body.
  destruct (String.eqb (Str.strip content) ""); [discriminate|].
  destruct (Str.split_once ">" _) as [[lhs rhs]|].
  - destruct (index0 (Str.split_ws (Str.strip lhs))) as [src|]; [|discriminate].
    destruct (index0 (Str.split_ws (Str.strip rhs))) as [tgt|]; [|discriminate].
    cbn. intros H. inversion H. reflexivity.
  - destruct (Str.split_ws _) as [|p ps]; [discriminate|].
    intros H. inversion H. reflexivity.
Qed.

(** C7, as stated, fails: a URL inside the option-flag group is part of
    the original content of the line, and the entry is not flagged. *)
Lemma url_in_options_is_not_flagged :
  let raw := "--   [http://example.com/x] XY_Pad/foo.lua" in
  let content := "[http://example.com/x] XY_Pad/foo.lua" in
  PROVIDES_LINE_RE raw = Some content /\
  entry_of_body content = Ok (Some (mkEntry "XY_Pad/foo.lua" "XY_Pad/foo.lua" false)) /\
  mentions_url content = true.
Proof. repeat split; reflexivity. Qed.

(** C7, amended: the flag [has_url] of a produced entry tells whether the
    content left after the option-flag group is stripped, and before any
    split on [>], contains [http://] or [https://].  A flagged entry has the
    URL in its original content, and on a line without option-flag group
    the flag is true exactly when the original content contains it. *)
Theorem has_url_after_options (content : string) (entry : ProvidesEntry) :
  entry_of_body content = Ok (Some entry) ->
  has_url entry = mentions_url (strip_options (Str.strip content)) /\
  (has_url entry = true -> mentions_url content = true) /\
  (Str.startswith "[" (Str.strip content) = false ->
   has_url entry = mentions_url content).
Proof.
  intros H. apply entry_has_url in H. rewrite mentions_url_strip in H.
  split; [exact H|]. split.
  - rewrite H. intros Hu. apply mentions_url_options in Hu.
    rewrite mentions_url_strip in Hu. exact Hu.
  - intros Hb. rewrite H. unfold strip_options. rewrite Hb.
    apply mentions_url_strip.
Qed.

Lemma has_url_after_options_witness :
  let content := "[main] https://example.com/pkg.lua > Tools/pkg.lua" in
  let entry := mkEntry "https://example.com/pkg.lua" "Tools/pkg.lua" true in
  has_url entry = mentions_url (strip_options (Str.strip content)) /\
  (has_url entry = true -> mentions_url content = true) /\
  (Str.startswith "[" (Str.strip content) = false ->
   has_url entry = mentions_url content).
Proof.
  apply (has_url_after_options
           "[main] https://example.com/pkg.lua > Tools/pkg.lua"
           (mkEntry "https://example.com/pkg.lua" "Tools/pkg.lua" true)).
  reflexivity.
Defined.

End Urls.

(** ** The copy loop of [cmd_sync] *)

Section Sync.

Import reapack_publish.

Variables repo_root fx_dir : string.

Lemma sync_entry_skipped st entry :
  skipped entry = true -> sync_entry repo_root fx_dir st entry = (st, Ok tt).
Proof.
  unfold skipped, sync_entry. intros H.
  destruct (String.eqb (source entry) "." || String.eqb (target entry) "."); [reflexivity|].
  cbn in H. rewrite H. reflexivity.
Qed.

(** The copy instructions one iteration adds. *)
Lemma sync_entry_copies st entry st' r :
  sync_entry repo_root fx_dir st entry = (st', r) ->
  sync_copies st' = sync_copies st \/
  (skipped entry = false /\
   exists dst, sync_copies st' =
               (sync_copies st ++ [(Fs.join repo_root (source entry), dst)])%list).
Proof.
  unfold sync_entry, skipped.
  destruct (String.eqb (source entry) "." || String.eqb (target entry) ".") eqn:E1.
  { intros H; inversion H; auto. }
  destruct (has_url entry) eqn:E2.
  { intros H; inversion H; auto. }
  destruct (negb (Str.startswith "XY_Pad/" (source entry))).
  { intros H; inversion H; auto. }
  destruct (negb (Fs.exists_ (sync_fs st) (Fs.join repo_root (source entry)))).
  { intros H; inversion H; auto. }
  destruct (_copy_file _ _ _) as [fs' [[]|e]]; intros H; inversion H; subst; cbn;
    right; (split; [reflexivity|]); eexists; reflexivity.
Qed.

Lemma sync_entries_copies entries : forall st st' r,
  sync_entries repo_root fx_dir st entries = (st', r) ->
  exists new,
    sync_copies st' = (sync_copies st ++ new)%list /\
    Forall (fun copy => exists entry,
              In entry entries /\ skipped entry = false /\
              fst copy = Fs.join repo_root (source entry)) new.
Proof.
  induction entries as [|entry entries IH]; intros st st' r H; cbn [sync_entries] in H.
  - inversion H; subst. exists []. rewrite app_nil_r. split; [reflexivity | constructor].
  - destruct (sync_entry repo_root fx_dir st entry) as [st1 r1] eqn:E1.
    assert (Hone : exists new1,
               sync_copies st1 = (sync_copies st ++ new1)%list /\
               Forall (fun copy => exists entry0,
                         In entry0 (entry :: entries) /\ skipped entry0 = false /\
                         fst copy = Fs.join repo_root (source entry0)) new1).
    { destruct (sync_entry_copies _ _ _ _ E1) as [Hsame | (Hskip & dst & Hadd)].
      - exists []. rewrite app_nil_r. split; [exact Hsame | constructor].
      - eexists. split; [exact Hadd|]. constructor; [|constructor].
        exists entry. cbn. auto. }
    destruct Hone as (new1 & Hc1 & Hf1).
    destruct r1 as [[]|e].
    + destruct (IH _ _ _ H) as (new2 & Hc2 & Hf2).
      exists (new1 ++ new2)%list. split.
      * rewrite Hc2, Hc1, <- app_assoc. reflexivity.
      * apply Forall_app. split; [exact Hf1|].
        eapply List.Forall_impl; [|exact Hf2].
        intros copy (entry0 & Hin & Hrest). exists entry0. split; [right; exact Hin | exact Hrest].
    + inversion H; subst. exists new1. auto.
Qed.

Lemma sync_entries_filter entries : forall st,
  sync_entries repo_root fx_dir st (List.filter (fun entry => negb (skipped entry)) entries)
  = sync_entries repo_root fx_dir st entries.
Proof.
  induction entries as [|entry entries IH]; intros st; [reflexivity|].
  cbn [List.filter sync_entries]. destruct (skipped entry) eqn:E; cbn [negb].
  - rewrite (sync_entry_skipped _ _ E). apply IH.
  - cbn [sync_entries]. destruct (sync_entry repo_root fx_dir st entry) as [st1 [[]|e]];
      [apply IH | reflexivity].
Qed.

End Sync.

Section SyncClaim.

Import reapack_publish.

Lemma cmd_sync_copies indexer args fs :
  Forall (fun copy => exists entry,
            skipped entry = false /\
            fst copy = Fs.join (repo_root args) (source entry))
         (sync_copies (fst (cmd_sync indexer args fs))).
Proof.
  unfold cmd_sync.
  destruct (negb (Fs.exists_ fs _)); [constructor|].
  destruct (negb (Fs.exists_ fs _)); [constructor|].
  destruct (_copy_file fs _ _) as [fs1 [[]|e]]; [|constructor].
  destruct (_parse_provides fs1 _) as [entries|e]; [|constructor].
  destruct (sync_entries _ _ _ entries) as [st r] eqn:E.
  destruct (sync_entries_copies _ _ _ _ _ _ E) as (new & Hc & Hf).
  cbn [sync_copies app] in Hc.
  assert (Hst : Forall (fun copy => exists entry,
                          skipped entry = false /\
                          fst copy = Fs.join (repo_root args) (source entry))
                       (sync_copies st)).
  { rewrite Hc. eapply List.Forall_impl; [|exact Hf].
    intros copy (entry & _ & H). exists entry. exact H. }
  destruct r as [[]|e]; [|exact Hst].
  destruct (run_index args); [|exact Hst].
  destruct (indexer (sync_fs st)) as [fs2 []]; exact Hst.
Qed.

(** C9: an entry whose [has_url] is true, or whose source or target is
    ["."], is passed over without effect and without error; with such
    entries removed the loop of the resolver does the same; and every copy
    instruction it carries out comes from an entry that is none of these,
    also when the loop ends in an error.  The same holds of the copy
    instructions of a whole run of [cmd_sync]. *)
Theorem sync_never_copies_skipped
        (repo_root fx_dir : string) (st : sync_state) (entries : list ProvidesEntry) :
  (forall entry,
     has_url entry = true \/ source entry = "." \/ target entry = "." ->
     sync_entry repo_root fx_dir st entry = (st, Ok tt)) /\
  sync_entries repo_root fx_dir st
    (List.filter (fun entry => negb (skipped entry)) entries)
  = sync_entries repo_root fx_dir st entries /\
  (exists new,
    sync_copies (fst (sync_entries repo_root fx_dir st entries))
    = (sync_copies st ++ new)%list /\
    Forall (fun copy => exists entry,
              In entry entries /\
              has_url entry = false /\ source entry <> "." /\ target entry <> "." /\
              fst copy = Fs.join repo_root (source entry)) new) /\
  (forall indexer args fs,
     Forall (fun copy => exists entry,
               has_url entry = false /\ source entry <> "." /\ target entry <> "." /\
               fst copy = Fs.join (reapack_publish.repo_root args) (source entry))
            (sync_copies (fst (cmd_sync indexer args fs)))).
Proof.
  assert (Hskip : forall entry, skipped entry = false ->
            has_url entry = false /\ source entry <> "." /\ target entry <> ".").
  { intros entry H. unfold skipped in H.
    apply orb_false_elim in H as [H Hurl].
    apply orb_false_elim in H as [Hs Ht].
    apply String.eqb_neq in Hs, Ht. auto. }
  split; [|split; [|split]].
  - intros entry H. apply sync_entry_skipped. unfold skipped.
    destruct H as [-> | [-> | ->]]; cbn; auto using orb_true_r.
    destruct (String.eqb (source entry) "."); reflexivity.
  - apply sync_entries_filter.
  - destruct (sync_entries repo_root fx_dir st entries) as [st' r] eqn:E.
    destruct (sync_entries_copies _ _ _ _ _ _ E) as (new & Hc & Hf).
    exists new. split; [exact Hc|].
    eapply List.Forall_impl; [|exact Hf].
    intros copy (entry & Hin & Hsk & Hsrc). exists entry.
    destruct (Hskip _ Hsk) as (Hu & Hs & Ht). auto.
  - intros indexer args fs.
    eapply List.Forall_impl; [|apply cmd_sync_copies].
    intros copy (entry & Hsk & Hsrc). exists entry.
    destruct (Hskip _ Hsk) as (Hu & Hs & Ht). auto.
Qed.

End SyncClaim.

(** ** The version line *)

Section VersionLine.

Import release.

Lemma mem_char_app c (a b : string) : mem_char c (a +:+ b) = mem_char c a || mem_char c b.
Proof.
  induction a as [|x a IH]; [reflexivity|].
  rewrite app_cons. cbn [mem_char]. rewrite IH. apply orb_assoc.
Qed.

Lemma length_app (a b : string) :
  String.length (a +:+ b) = (String.length a + String.length b)%nat.
Proof. induction a as [|x a IH]; [reflexivity|]. rewrite app_cons. cbn. rewrite IH. reflexivity. Qed.

Lemma drop_app (a b : string) : Str.drop (String.length a) (a +:+ b) = b.
Proof. induction a as [|x a IH]; [reflexivity | exact IH]. Qed.

Lemma startswith_app p s : Str.startswith p (p +:+ s) = true.
Proof.
  induction p as [|a p IH]; [reflexivity|].
  rewrite app_cons. cbn [Str.startswith]. rewrite chr_eqb_refl, IH. reflexivity.
Qed.

Lemma startswith_split p s :
  Str.startswith p s = true -> s = p +:+ Str.drop (String.length p) s.
Proof.
  revert s. induction p as [|a p IH]; intros s H; [reflexivity|].
  destruct s as [|b s]; [discriminate|]. cbn [Str.startswith] in H.
  apply andb_prop in H as [Hab Hp]. apply chr_eqb_eq in Hab as ->.
  rewrite app_cons. cbn [String.length Str.drop]. f_equal. apply IH, Hp.
Qed.

Lemma space_not_c c : Chr.is_space c = true -> Chr.eqb c "c" = false.
Proof. destruct c as [[] [] [] [] [] [] [] []]; vm_compute; congruence. Qed.

Lemma all_blank_no_c w : all_blank w = true -> mem_char "c" w = false.
Proof.
  induction w as [|x w IH]; [reflexivity|]. cbn [all_blank mem_char].
  intros H. apply andb_prop in H as [Hx Hw].
  rewrite (space_not_c _ Hx), (IH Hw). reflexivity.
Qed.

Lemma blanks_to_eol_spec s k :
  blanks_to_eol s = Some k ->
  exists w y, s = w +:+ y /\ String.length w = k /\ all_blank w = true /\ at_eol y.
Proof.
  revert k. induction s as [|c s IH]; intros k H; cbn [blanks_to_eol] in H.
  - inversion H; subst. exists "", "". repeat split.
  - destruct (Chr.is_space c) eqn:Ec; [|discriminate].
    destruct (blanks_to_eol s) as [k'|] eqn:Es.
    + inversion H; subst. destruct (IH k' eq_refl) as (w & y & -> & Hl & Hw & Hy).
      exists (String c w), y. rewrite app_cons. cbn. rewrite Ec, Hw, Hl. repeat split. exact Hy.
    + destruct (Chr.eqb c Chr.newline) eqn:En; [|discriminate].
      inversion H; subst. apply chr_eqb_eq in En as ->.
      exists "", (String Chr.newline s). repeat split.
Qed.

Lemma version_line_match_spec s k :
  version_line_match s = Some k ->
  exists w y, s = version_tag +:+ w +:+ y /\
              k = String.length (version_tag +:+ w) /\
              all_blank w = true /\ at_eol y.
Proof.
  unfold version_line_match. destruct (Str.startswith version_tag s) eqn:Hs; [|discriminate].
  destruct (blanks_to_eol _) as [j|] eqn:Hb; [|discriminate].
  cbn. intros H. inversion H; subst.
  destruct (blanks_to_eol_spec _ _ Hb) as (w & y & Hwy & Hl & Hw & Hy).
  exists w, y. repeat split; auto.
  - rewrite (startswith_split _ _ Hs) at 1. rewrite Hwy. reflexivity.
  - rewrite length_app, Hl. reflexivity.
Qed.

Variable repl : string.

Lemma go_skip n : forall s bol,
  exists b, sub_version_go repl bol n s = sub_version_go repl b O (Str.drop n s).
Proof.
  induction n as [|n IH]; intros s bol; [exists bol; reflexivity|].
  destruct s as [|c s]; [exists bol; reflexivity|].
  cbn [sub_version_go Str.drop]. apply IH.
Qed.

Lemma match_at_eol y : at_eol y -> version_line_match y = None.
Proof. destruct y as [|c y]; [reflexivity|]. cbn. intros ->. reflexivity. Qed.

Lemma go_nomatch (bol : bool) c r :
  (if bol then version_line_match (String c r) else None) = @None nat ->
  sub_version_go repl bol O (String c r)
  = String c (sub_version_go repl (Chr.eqb c Chr.newline) O r).
Proof. intros H. cbn [sub_version_go]. rewrite H. reflexivity. Qed.

Lemma go_at_eol y b b' :
  at_eol y -> sub_version_go repl b O y = sub_version_go repl b' O y.
Proof.
  destruct y as [|c y]; [reflexivity|]. intros Hy.
  rewrite !go_nomatch; [reflexivity | |];
    rewrite (match_at_eol (String c y) Hy); match goal with |- (if ?x then _ else _) = _ => destruct x end; reflexivity.
Qed.

Lemma go_keeps_eol y b : at_eol y -> at_eol (sub_version_go repl b O y).
Proof.
  destruct y as [|c y]; [intros; exact I|]. intros Hy.
  rewrite go_nomatch; [exact Hy|].
  rewrite (match_at_eol (String c y) Hy). destruct b; reflexivity.
Qed.

(** The scan at a match: the matched text gives way to [repl] and the scan
    goes on behind it. *)
Lemma go_match s k :
  version_line_match s = Some k ->
  sub_version_go repl true O s = repl +:+ sub_version_go repl false O (Str.drop k s) /\
  at_eol (Str.drop k s) /\
  exists w, s = (version_tag +:+ w) +:+ Str.drop k s /\ all_blank w = true.
Proof.
  intros Hm. destruct (version_line_match_spec _ _ Hm) as (w & y & Hs & Hk & Hw & Hy).
  assert (Hd : Str.drop k s = y).
  { rewrite Hk, Hs, <- app_assoc'. apply drop_app. }
  rewrite Hd. split; [|split; [exact Hy|]].
  - destruct s as [|c r]; [discriminate Hs|].
    destruct k as [|n]; [discriminate Hk|].
    cbn [sub_version_go]. rewrite Hm. f_equal.
    destruct (go_skip n r (Chr.eqb c Chr.newline)) as [b ->].
    change (Str.drop n r) with (Str.drop (S n) (String c r)).
    rewrite Hd. apply go_at_eol, Hy.
  - exists w. rewrite app_assoc'. auto.
Qed.

(** Outside a match the scan copies the character. *)
Lemma go_copy (bol : bool) c r :
  (forall k, (if bol then version_line_match (String c r) else None) <> Some k) ->
  sub_version_go repl bol O (String c r)
  = String c (sub_version_go repl (Chr.eqb c Chr.newline) O r).
Proof.
  intros H. apply go_nomatch.
  destruct (if bol then version_line_match (String c r) else None) as [k|];
    [destruct (H k eq_refl) | reflexivity].
Qed.

(** *** What the scan keeps of a text without newline *)

Lemma startswith_go t : forall r (bol : bool),
  mem_char Chr.newline t = false ->
  (if bol then version_line_match r else None) = @None nat ->
  Str.startswith t (sub_version_go repl bol O r) = Str.startswith t r.
Proof.
  induction t as [|a t IH]; intros r bol Ht Hm.
  - destruct (sub_version_go repl bol O r), r; reflexivity.
  - destruct r as [|c r]; [reflexivity|].
    rewrite (go_nomatch _ _ _ Hm). cbn [Str.startswith].
    destruct (Chr.eqb a c) eqn:E; [|reflexivity]. cbn [andb].
    apply chr_eqb_eq in E as <-. cbn [mem_char] in Ht.
    apply orb_false_elim in Ht as [Ha Ht]. rewrite Ha. apply IH; [exact Ht | reflexivity].
Qed.

Lemma startswith_no_c t : forall m y,
  mem_char "c" t = true -> mem_char Chr.newline t = false ->
  mem_char "c" m = false -> at_eol y ->
  Str.startswith t (m +:+ y) = false.
Proof.
  induction t as [|a t IH]; intros m y Hc Hn Hm Hy; [discriminate Hc|].
  cbn [mem_char] in Hn. apply orb_false_elim in Hn as [Han Hn].
  destruct m as [|b m].
  - rewrite app_empty_l. destruct y as [|x y]; [reflexivity|].
    cbn in Hy. subst x. cbn [Str.startswith]. rewrite Han. reflexivity.
  - rewrite app_cons. cbn [Str.startswith].
    destruct (Chr.eqb a b) eqn:E; [|reflexivity]. cbn [andb].
    apply chr_eqb_eq in E as <-. cbn [mem_char] in Hm, Hc.
    apply orb_false_elim in Hm as [Hac Hm]. rewrite Hac in Hc. cbn [orb] in Hc.
    apply IH; assumption.
Qed.

Lemma contains_no_c t m y :
  mem_char "c" t = true -> mem_char Chr.newline t = false ->
  mem_char "c" m = false -> at_eol y ->
  Str.contains t (m +:+ y) = Str.contains t y.
Proof.
  intros Hc Hn Hm Hy. induction m as [|b m IH]; [reflexivity|].
  cbn [mem_char] in Hm. apply orb_false_elim in Hm as [Hb Hm'].
  rewrite app_cons. cbn [Str.contains]. rewrite (IH Hm').
  rewrite <- app_cons, (startswith_no_c t (String b m) y Hc Hn); [reflexivity | | exact Hy].
  cbn [mem_char]. rewrite Hb, Hm'. reflexivity.
Qed.

Hypothesis repl_no_c : mem_char "c" repl = false.

(** A text with a [c] and without newline occurs in the stamped text
    exactly when it occurs in the template. *)
Lemma contains_go t :
  mem_char "c" t = true -> mem_char Chr.newline t = false ->
  forall n s (bol : bool), (String.length s <= n)%nat ->
  Str.contains t (sub_version_go repl bol O s) = Str.contains t s.
Proof.
  intros Hc Hn. induction n as [|n IH]; intros s bol Hlen.
  - destruct s; [reflexivity | cbn in Hlen; lia].
  - destruct s as [|c r]; [reflexivity|].
    destruct (if bol then version_line_match (String c r) else None) as [k|] eqn:Hm.
    + destruct bol; [|discriminate Hm].
      destruct (go_match _ _ Hm) as (Hgo & Hy & w & Hs & Hw).
      rewrite Hgo.
      rewrite (contains_no_c t repl _ Hc Hn repl_no_c (go_keeps_eol _ _ Hy)).
      rewrite IH.
      * rewrite Hs at 2. symmetry. apply contains_no_c; auto.
        rewrite mem_char_app, (all_blank_no_c _ Hw). reflexivity.
      * apply (f_equal String.length) in Hs. rewrite !length_app in Hs.
        cbn in Hs, Hlen. lia.
    + pose proof (startswith_go t (String c r) bol Hn Hm) as Hst.
      rewrite (go_nomatch _ _ _ Hm) in *.
      cbn [Str.contains]. rewrite Hst. f_equal.
      apply IH. cbn in Hlen. lia.
Qed.

(** *** The scan line by line *)







(** The bare version line followed by a line that does not begin with a
    blank. *)
Lemma go_version_line c rest :
  Chr.is_space c = false ->
  sub_version_go repl true O (version_tag +:+ String Chr.newline (String c rest))
  = repl +:+ String Chr.newline (sub_version_go repl true O (String c rest)).
Proof.
  intros Hc.
  assert (Hm : version_line_match (version_tag +:+ String Chr.newline (String c rest))
               = Some (String.length version_tag)).
  { unfold version_line_match. rewrite startswith_app, drop_app.
    cbn [blanks_to_eol]. rewrite Hc. reflexivity. }
  destruct (go_match _ _ Hm) as (Hgo & _ & _). rewrite Hgo, drop_app.
  rewrite go_nomatch by reflexivity. reflexivity.
Qed.

End VersionLine.

(** ** The changelog block *)

Section Changelog.

Import release.

Lemma replace_first_unfold old new s :
  Str.replace_first old new s =
  if Str.startswith old s then new +:+ Str.drop (String.length old) s
  else match s with
       | "" => ""
       | String c r => String c (Str.replace_first old new r)
       end.
Proof. destruct s; reflexivity. Qed.

Lemma replace_first_here old new rest :
  Str.replace_first old new (old +:+ rest) = new +:+ rest.
Proof. rewrite replace_first_unfold, startswith_app, drop_app. reflexivity. Qed.

Lemma replace_first_at old new a rest :
  first_at old a rest ->
  Str.replace_first old new (a +:+ rest) = a +:+ Str.replace_first old new rest.
Proof.
  induction a as [|c a IH]; [reflexivity|]. intros [Hs Ha].
  rewrite !app_cons, replace_first_unfold, Hs, (IH Ha). reflexivity.
Qed.

Lemma replace_first_absent old new s :
  Str.contains old s = false -> Str.replace_first old new s = s.
Proof.
  induction s as [|c s IH]; intros H; rewrite replace_first_unfold;
    cbn [Str.contains] in H; apply orb_false_elim in H as [Hs Hc]; rewrite Hs;
    [reflexivity|]. rewrite (IH Hc). reflexivity.
Qed.





Lemma contains_here t a b : Str.contains t (a +:+ t +:+ b) = true.
Proof.
  induction a as [|c a IH].
  - rewrite app_empty_l. destruct (t +:+ b) eqn:E; cbn [Str.contains];
      rewrite <- E, startswith_app; reflexivity.
  - rewrite app_cons. apply contains_cons, IH.
Qed.

(** The decimal numerals hold no letter. *)
Lemma numeral_no_c n : mem_char "c" (Str.of_N n) = false.
Proof.
  unfold Str.of_N, NilZero.string_of_uint.
  assert (H : forall d, mem_char "c" (NilEmpty.string_of_uint d) = false).
  { induction d; cbn; auto. }
  destruct (N.to_uint n); try apply H. reflexivity.
Qed.

Lemma version_text_no_c version :
  mem_char "c" (version_tag +:+ " " +:+ SemVer.str version) = false.
Proof.
  unfold SemVer.str. rewrite !mem_char_app, !numeral_no_c. reflexivity.
Qed.

Lemma contains_sub_version version template :
  Str.contains changelog_tag (sub_version version template)
  = Str.contains changelog_tag template.
Proof.
  unfold sub_version.
  apply (contains_go _ (version_text_no_c version) changelog_tag eq_refl eq_refl
                     (String.length template)).
  reflexivity.
Qed.

End Changelog.

(** ** Stamping *)

Section Stamping.

Import release.


Lemma stamp_missing path template version notes :
  Str.contains changelog_tag template = false ->
  stamp path template version notes = Raise (Release (MissingChangelog path)).
Proof.
  intros H. unfold stamp. rewrite contains_sub_version, H. reflexivity.
Qed.

Lemma stamp_present path template version notes :
  Str.contains changelog_tag template = true ->
  stamp path template version notes
  = Ok (Str.replace_first (changelog_tag +:+ Str.nl)
          (changelog_tag +:+ Str.nl +:+ insertion notes)
          (sub_version version template)).
Proof.
  intros H. unfold stamp. rewrite contains_sub_version, H. reflexivity.
Qed.

Lemma stamp_insert path template version notes a b :
  sub_version version template = a +:+ (changelog_tag +:+ Str.nl) +:+ b ->
  first_at (changelog_tag +:+ Str.nl) a ((changelog_tag +:+ Str.nl) +:+ b) ->
  stamp path template version notes
  = Ok (a +:+ (changelog_tag +:+ Str.nl) +:+ insertion notes +:+ b).
Proof.
  intros Hout Hfirst.
  assert (E : Str.contains changelog_tag template = true).
  { rewrite <- (contains_sub_version version), Hout, app_assoc'. apply contains_here. }
  rewrite (stamp_present _ _ _ _ E), Hout.
  rewrite (replace_first_at _ _ _ _ Hfirst), replace_first_here.
  rewrite !app_assoc'. reflexivity.
Qed.

(** C4, as stated, fails.  The tag is looked for as a text, not as a line:
    a template whose tag line is indented has no line that is exactly the
    tag, and is stamped.  And a template that ends in the tag line without
    a final newline has such a line, and nothing is inserted. *)
Lemma changelog_tag_is_not_matched_as_line :
  let version := SemVer.mk 1 4 0 in
  let notes := unlines ["Fixed X"] in
  (~ spec.has_line changelog_tag (unlines ["--@version"; "  --@changelog"]) /\
   stamp "reapack-base" (unlines ["--@version"; "  --@changelog"]) version notes
   = Ok (unlines ["--@version 1.4.0"; "  --@changelog"; "--  Fixed X"])) /\
  (spec.has_line changelog_tag (document ["--@version"; "--@changelog"]) /\
   stamp "reapack-base" (document ["--@version"; "--@changelog"]) version notes
   = Ok (document ["--@version 1.4.0"; "--@changelog"])).
Proof.
  split; split.
  - unfold spec.has_line. vm_compute. intros [H | [H | [H | []]]]; discriminate H.
  - reflexivity.
  - unfold spec.has_line. vm_compute. right. left. reflexivity.
  - reflexivity.
Qed.

(** C4, amended: stamping raises the missing-changelog error exactly when
    the text [--@changelog] occurs nowhere in the template, and otherwise
    returns a document; when the version-stamped template holds the tag
    followed by a newline, the reformatted changelog block is inserted
    immediately after the first such occurrence. *)
Theorem stamp_changelog (path template : string) (version : SemVer.t) (notes : string) :
  (stamp path template version notes = Raise (Release (MissingChangelog path))
   <-> Str.contains changelog_tag template = false) /\
  (Str.contains changelog_tag template = true ->
   exists out, stamp path template version notes = Ok out) /\
  (forall a b,
     sub_version version template = a +:+ (changelog_tag +:+ Str.nl) +:+ b ->
     first_at (changelog_tag +:+ Str.nl) a ((changelog_tag +:+ Str.nl) +:+ b) ->
     stamp path template version notes
     = Ok (a +:+ (changelog_tag +:+ Str.nl) +:+ insertion notes +:+ b)).
Proof.
  split; [|split].
  - split; [|apply stamp_missing].
    destruct (Str.contains changelog_tag template) eqn:E; [|reflexivity].
    rewrite (stamp_present _ _ _ _ E). discriminate.
  - intros E. rewrite (stamp_present _ _ _ _ E). eexists. reflexivity.
  - intros a b. apply stamp_insert.
Qed.

Lemma stamp_changelog_witness :
  stamp "reapack-base" (unlines ["-- header"; "--@version"; "--@changelog"; "--@provides"])
        (SemVer.mk 2 0 0) (unlines ["Fixed X"])
  = Ok (unlines ["-- header"; "--@version 2.0.0"]
        +:+ (changelog_tag +:+ Str.nl) +:+ insertion (unlines ["Fixed X"])
        +:+ unlines ["--@provides"]).
Proof.
  apply (proj2 (proj2 (stamp_changelog "reapack-base"
           (unlines ["-- header"; "--@version"; "--@changelog"; "--@provides"])
           (SemVer.mk 2 0 0) (unlines ["Fixed X"])))).
  - reflexivity.
  - vm_compute. repeat split.
Defined.



End Stamping.

(** ** The dry run of [cmd_prepare] *)

Section DryRun.

Import release.



Lemma with_report_file fs p content :
  Fs.files (with_report fs p content) !! p
  = Some (default "" (Fs.files fs !! p) +:+ content).
Proof. cbn. apply lookup_insert_eq. Qed.

End DryRun.

(** ** Sorting does not depend on the order of discovery *)

Section SortCanonical.

Lemma ltb_lt a b : String.ltb a b = true <-> String.compare a b = Lt.
Proof. unfold String.ltb. destruct (String.compare a b); split; congruence. Qed.

Lemma leb_not_ltb a b : String.leb a b = negb (String.ltb b a).
Proof.
  unfold String.leb, String.ltb. rewrite (String.compare_antisym b a).
  destruct (String.compare a b); reflexivity.
Qed.

Lemma ltb_leb a b : String.ltb a b = true -> String.leb a b = true.
Proof. unfold String.ltb, String.leb. destruct (String.compare a b); congruence. Qed.


Lemma leb_trans a b c :
  String.leb a b = true -> String.leb b c = true -> String.leb a c = true.
Proof.
  intros H1 H2. apply Is_true_true.
  change (String.le a c). transitivity b; apply Is_true_true; assumption.
Qed.




Lemma insert_by_id_cons x y r :
  insert_by id x (y :: r)
  = if String.ltb x y then x :: y :: r else y :: insert_by id x r.
Proof. reflexivity. Qed.




End SortCanonical.

(** ** A file that is no input of [cmd_prepare] *)

Section PlanFrame.

Import release.

Variables (fs : Fs.t) (out content : string).







Lemma glob_child d p : In p (Fs.glob_md fs d) -> Fs.is_md_child d p = true.
Proof. unfold Fs.glob_md. intros H. apply filter_In in H as [_ H]. exact H. Qed.

Lemma classify_paths paths it : In it (classify paths) -> In (snd it) paths.
Proof.
  induction paths as [|p paths IH]; cbn [classify]; [intros []|].
  destruct (bump_level_of _); [intros [<- | H]|intros H]; cbn; auto.
Qed.






End PlanFrame.

Section DryRunClaim.

Import release.




End DryRunClaim.

(** * Further properties *)

(** ** Decimal numerals *)

Section Numerals.

Import spec.

Lemma int_acc_numeral d : forall acc,
  Str.int_acc acc (NilEmpty.string_of_uint d) = uint_val acc d.
Proof. induction d; intros acc; cbn [NilEmpty.string_of_uint Str.int_acc uint_val]; auto. Qed.

Lemma uint_val_pos d : forall p, uint_val (Npos p) d = Npos (Pos.of_uint_acc d p).
Proof.
  induction d; intros p; cbn [uint_val Pos.of_uint_acc]; [reflexivity|..];
    match goal with
    | |- uint_val ?a _ = Npos (Pos.of_uint_acc _ ?q) =>
        replace a with (Npos q) by lia; apply IHd
    end.
Qed.

Lemma uint_val_zero d : uint_val 0 d = N.of_uint d.
Proof.
  unfold N.of_uint.
  induction d; cbn [uint_val Pos.of_uint]; [reflexivity | exact IHd | ..];
    match goal with
    | |- uint_val ?a _ = Npos (Pos.of_uint_acc _ ?q) =>
        change a with (Npos q); apply uint_val_pos
    end.
Qed.

Lemma int_numeral d : Str.int (NilEmpty.string_of_uint d) = N.of_uint d.
Proof. unfold Str.int. rewrite int_acc_numeral. apply uint_val_zero. Qed.

(** [int(str(n))] is [n]. *)
Lemma int_of_N n : Str.int (Str.of_N n) = n.
Proof.
  unfold Str.of_N, NilZero.string_of_uint.
  pose proof (DecimalN.Unsigned.of_to n) as H.
  destruct (N.to_uint n) eqn:E; try (rewrite int_numeral; exact H).
  rewrite <- H. reflexivity.
Qed.

Lemma numeral_digits d : all_digits (NilEmpty.string_of_uint d) = true.
Proof. induction d; cbn; auto. Qed.

Lemma to_uint_normal n : Decimal.unorm (N.to_uint n) = N.to_uint n.
Proof.
  rewrite <- (DecimalN.Unsigned.of_to n) at 2.
  symmetry. apply DecimalN.Unsigned.to_of.
Qed.

Lemma normal_D0 l : Decimal.unorm (Decimal.D0 l) = Decimal.D0 l -> l = Decimal.Nil.
Proof.
  intros H. destruct (Decimal.uint_eq_dec l Decimal.Nil) as [->|Hne]; [reflexivity|].
  exfalso. rewrite DecimalFacts.unorm_D0 in H.
  pose proof (DecimalFacts.nb_digits_unorm l Hne) as Hlen.
  rewrite H in Hlen. cbn in Hlen. lia.
Qed.

(** [str(n)] is [0] or a string of digits that does not start with [0]. *)
Lemma of_N_strict n : strict_segment (Str.of_N n).
Proof.
  unfold Str.of_N, NilZero.string_of_uint.
  pose proof (to_uint_normal n) as H.
  destruct (N.to_uint n) as [|l|l|l|l|l|l|l|l|l|l] eqn:E.
  - left. reflexivity.
  - apply normal_D0 in H. subst l. left. reflexivity.
  - right. eexists _, _. split; [reflexivity|]. split; [reflexivity | apply numeral_digits].
  - right. eexists _, _. split; [reflexivity|]. split; [reflexivity | apply numeral_digits].
  - right. eexists _, _. split; [reflexivity|]. split; [reflexivity | apply numeral_digits].
  - right. eexists _, _. split; [reflexivity|]. split; [reflexivity | apply numeral_digits].
  - right. eexists _, _. split; [reflexivity|]. split; [reflexivity | apply numeral_digits].
  - right. eexists _, _. split; [reflexivity|]. split; [reflexivity | apply numeral_digits].
  - right. eexists _, _. split; [reflexivity|]. split; [reflexivity | apply numeral_digits].
  - right. eexists _, _. split; [reflexivity|]. split; [reflexivity | apply numeral_digits].
  - right. eexists _, _. split; [reflexivity|]. split; [reflexivity | apply numeral_digits].
Qed.



End Numerals.

(** ** Versions: printing, parsing, bumping *)

Section Versions.

Import release spec.

Lemma last_char_app (a b : string) : b <> "" -> last_char (a +:+ b) = last_char b.
Proof.
  intros Hb. induction a as [|c a IH]; [reflexivity|].
  rewrite app_cons, last_char_cons; [exact IH|].
  destruct a; [rewrite app_empty_l; exact Hb | discriminate].
Qed.

Lemma rstrip_clean t : ends_clean t -> Str.rstrip t = t.
Proof.
  induction t as [|c t IH]; intros H; [reflexivity|].
  cbn [Str.rstrip]. destruct t as [|b t].
  - cbn. rewrite (H c eq_refl). reflexivity.
  - rewrite IH; [reflexivity|].
    intros x Hx. apply H. rewrite last_char_cons by discriminate. exact Hx.
Qed.

Lemma all_digits_clean s : all_digits s = true -> ends_clean s.
Proof.
  induction s as [|c s IH]; intros H x Hx; [discriminate Hx|].
  cbn [all_digits] in H. apply andb_prop in H as [Hc Hs].
  destruct s as [|b s].
  - inversion Hx; subst. apply digit_not_space, Hc.
  - apply (IH Hs). exact Hx.
Qed.

Lemma strict_segment_digits a : strict_segment a -> all_digits a = true /\ a <> "".
Proof.
  intros [-> | (c & r & -> & Hc & Hr)]; [split; [reflexivity | discriminate]|].
  split; [|discriminate]. cbn [all_digits]. rewrite (digit19_digit _ Hc), Hr. reflexivity.
Qed.

(** A text of the strict grammar is the value [SemVer.parse] works on. *)
Lemma parsed_value_strict s : strict_semver s -> parsed_value s = s.
Proof.
  intros (a & b & c & Ha & Hb & Hc & ->).
  destruct (strict_segment_digits _ Hc) as [Hcd Hcne].
  destruct (strict_segment_digits _ Ha) as [Had Hane].
  set (s := a +:+ "." +:+ b +:+ "." +:+ c).
  assert (Hclean : ends_clean s).
  { intros x Hx. unfold s in Hx.
    rewrite <- !app_assoc' in Hx. rewrite last_char_app in Hx by exact Hcne.
    exact (all_digits_clean _ Hcd x Hx). }
  assert (Hhead : exists x r, s = String x r /\ Chr.is_digit x = true).
  { unfold s. destruct a as [|x a]; [congruence|]. exists x, (a +:+ "." +:+ b +:+ "." +:+ c).
    split; [reflexivity|]. cbn [all_digits] in Had. apply andb_prop in Had as [H _]. exact H. }
  destruct Hhead as (x & r & Hs & Hx).
  unfold parsed_value, Str.strip. rewrite (rstrip_clean _ Hclean), Hs.
  cbn [Str.lstrip]. rewrite (digit_not_space _ Hx). cbn [Str.lstrip_char].
  replace (Chr.eqb x "v") with false; [reflexivity|].
  clear -Hx. destruct x as [[] [] [] [] [] [] [] []]; vm_compute in Hx; try discriminate Hx;
    reflexivity.
Qed.

Lemma str_strict v : strict_semver (SemVer.str v).
Proof.
  exists (Str.of_N (SemVer.major v)), (Str.of_N (SemVer.minor v)),
         (Str.of_N (SemVer.patch v)).
  repeat split; apply of_N_strict.
Qed.

(** X1: Round trip: the printed form of a version parses back to the version. *)
Theorem parse_str_round_trip (v : SemVer.t) : SemVer.parse (SemVer.str v) = Ok v.
Proof.
  rewrite (parse_strict (SemVer.str v) _ _ _
             (of_N_strict (SemVer.major v)) (of_N_strict (SemVer.minor v))
             (of_N_strict (SemVer.patch v))).
  - rewrite !int_of_N. destruct v; reflexivity.
  - apply parsed_value_strict, str_strict.
Qed.



Lemma level_cases level :
  is_level level \/
  (String.eqb level "major" = false /\ String.eqb level "minor" = false /\
   String.eqb level "patch" = false).
Proof.
  unfold is_level.
  destruct (String.eqb level "major") eqn:E1; [apply String.eqb_eq in E1; auto|].
  destruct (String.eqb level "minor") eqn:E2; [apply String.eqb_eq in E2; auto|].
  destruct (String.eqb level "patch") eqn:E3; [apply String.eqb_eq in E3; auto|].
  auto.
Qed.

(** X3: [bump] succeeds exactly on the three levels, and then yields a version
    that is strictly greater in the order by major, minor and patch number
    and differs from the old one in the bumped number and the numbers
    after it only; any other level raises the unknown-level error. *)
Theorem bump_increases (v : SemVer.t) (level : string) :
  (is_level level ->
   exists v', SemVer.bump v level = Ok v' /\ version_lt v v' /\
              (level = "patch" ->
               SemVer.major v' = SemVer.major v /\ SemVer.minor v' = SemVer.minor v) /\
              (level = "minor" ->
               SemVer.major v' = SemVer.major v /\ SemVer.patch v' = 0%N) /\
              (level = "major" ->
               SemVer.minor v' = 0%N /\ SemVer.patch v' = 0%N)) /\
  (~ is_level level ->
   SemVer.bump v level = Raise (Release (UnknownBumpLevel level))).
Proof.
  split.
  - intros [-> | [-> | ->]]; eexists; (split; [reflexivity|]);
      destruct v as [a b c]; cbn; repeat split; try discriminate; lia.
  - intros Hn. destruct (level_cases level) as [H | (E1 & E2 & E3)]; [contradiction|].
    unfold SemVer.bump. rewrite E1, E2, E3. reflexivity.
Qed.

End Versions.

(** ** Discovery of the pending notes *)

Section Discovery.

Import release spec.

Lemma startswith_same_length p : forall q t,
  Str.startswith p t = true -> Str.startswith q t = true ->
  String.length p = String.length q -> p = q.
Proof.
  induction p as [|a p IH]; intros q t Hp Hq Hlen.
  - destruct q; [reflexivity | discriminate Hlen].
  - destruct q as [|b q]; [discriminate Hlen|].
    destruct t as [|c t]; [discriminate Hp|].
    cbn [Str.startswith] in Hp, Hq.
    apply andb_prop in Hp as [Ha Hp]. apply andb_prop in Hq as [Hb Hq].
    apply chr_eqb_eq in Ha, Hb. subst a b. f_equal.
    apply (IH q t Hp Hq). cbn in Hlen. lia.
Qed.

Lemma suffix_unique l1 l2 name :
  is_level l1 -> is_level l2 ->
  Str.endswith ("." +:+ l1 +:+ ".md") name = true ->
  Str.endswith ("." +:+ l2 +:+ ".md") name = true -> l1 = l2.
Proof.
  unfold Str.endswith. intros H1 H2 E1 E2.
  assert (Hlen : String.length (String.rev ("." +:+ l1 +:+ ".md"))
                 = String.length (String.rev ("." +:+ l2 +:+ ".md"))).
  { destruct H1 as [-> | [-> | ->]], H2 as [-> | [-> | ->]]; reflexivity. }
  pose proof (startswith_same_length _ _ _ E1 E2 Hlen) as H.
  destruct H1 as [-> | [-> | ->]], H2 as [-> | [-> | ->]];
    try reflexivity; vm_compute in H; discriminate H.
Qed.

Lemma bump_level_of_iff name level :
  bump_level_of name = Some level <->
  is_level level /\ Str.endswith ("." +:+ level +:+ ".md") name = true.
Proof.
  split.
  - intros H. split; [eapply bump_level_of_level, H|].
    unfold bump_level_of in H. apply find_some in H as [_ H]. exact H.
  - intros [Hl He]. unfold bump_level_of. cbn [List.find].
    destruct (Str.endswith ("." +:+ "patch" +:+ ".md") name) eqn:Ep.
    { f_equal. apply (suffix_unique _ _ name); unfold is_level; auto. }
    destruct (Str.endswith ("." +:+ "minor" +:+ ".md") name) eqn:Em.
    { f_equal. apply (suffix_unique _ _ name); unfold is_level; auto. }
    destruct Hl as [-> | [-> | ->]]; [congruence | congruence |].
    rewrite He. reflexivity.
Qed.

(** X4: The level of a note is decided by its suffix alone: a name carries the
    suffix of at most one level, so the order in which the three suffixes
    are tried plays no part, and a name without any of them has no level. *)
Theorem bump_level_by_suffix (lower_name : string) :
  (forall level,
     bump_level_of lower_name = Some level <->
     is_level level /\ Str.endswith ("." +:+ level +:+ ".md") lower_name = true) /\
  (forall l1 l2,
     is_level l1 -> is_level l2 ->
     Str.endswith ("." +:+ l1 +:+ ".md") lower_name = true ->
     Str.endswith ("." +:+ l2 +:+ ".md") lower_name = true -> l1 = l2) /\
  (bump_level_of lower_name = None <->
   forall level, is_level level ->
                 Str.endswith ("." +:+ level +:+ ".md") lower_name = false).
Proof.
  split; [|split].
  - intros level. apply bump_level_of_iff.
  - intros l1 l2. apply suffix_unique.
  - split.
    + intros Hn level Hl.
      destruct (Str.endswith _ lower_name) eqn:E; [|reflexivity].
      rewrite (proj2 (bump_level_of_iff lower_name level) (conj Hl E)) in Hn.
      discriminate Hn.
    + intros H. destruct (bump_level_of lower_name) as [level|] eqn:E; [|reflexivity].
      apply bump_level_of_iff in E as [Hl He]. rewrite (H level Hl) in He. discriminate He.
Qed.

Lemma classify_in paths level path :
  In (level, path) (classify paths) <->
  In path paths /\ bump_level_of (Str.lower (Fs.name path)) = Some level.
Proof.
  induction paths as [|p paths IH]; cbn [classify In]; [tauto|].
  destruct (bump_level_of (Str.lower (Fs.name p))) as [l|] eqn:E; cbn [In]; rewrite IH.
  - split.
    + intros [H | [H1 H2]]; [inversion H; subst; auto | auto].
    + intros [[-> | H1] H2]; [left; congruence | auto].
  - split.
    + intros [H1 H2]. auto.
    + intros [[-> | H1] H2]; [congruence | auto].
Qed.

Lemma path_le_trans a b c : path_le a b -> path_le b c -> path_le a c.
Proof. apply leb_trans. Qed.

Lemma insert_sorted x l :
  Sorted.StronglySorted path_le l -> Sorted.StronglySorted path_le (insert_by id x l).
Proof.
  induction 1 as [|y r Hr IH Hy]; [repeat constructor|].
  rewrite insert_by_id_cons. destruct (String.ltb x y) eqn:E.
  - constructor; [constructor; assumption|].
    constructor; [apply ltb_leb, E|].
    eapply List.Forall_impl; [|exact Hy]. intros z Hz.
    eapply path_le_trans; [apply ltb_leb, E | exact Hz].
  - constructor; [exact IH|].
    apply List.Forall_forall. intros z Hz.
    apply (Permutation_in _ (insert_by_perm id x r)) in Hz. destruct Hz as [<- | Hz].
    + unfold path_le. rewrite leb_not_ltb, E. reflexivity.
    + exact (proj1 (List.Forall_forall _ _) Hy z Hz).
Qed.

Lemma sorted_by_sorted l : Sorted.StronglySorted path_le (sorted_by id l).
Proof.
  unfold sorted_by.
  enough (H : forall acc, Sorted.StronglySorted path_le acc ->
                          Sorted.StronglySorted path_le
                            (fold_left (fun acc x => insert_by id x acc) l acc))
    by (apply H; constructor).
  induction l as [|x l IH]; intros acc Hacc; [exact Hacc|].
  cbn [fold_left]. apply IH, insert_sorted, Hacc.
Qed.

Lemma classify_sorted paths :
  Sorted.StronglySorted path_le paths -> pending_sorted (classify paths).
Proof.
  unfold pending_sorted. induction 1 as [|p paths Hs IH Hp]; cbn [classify]; [constructor|].
  destruct (bump_level_of _); [|exact IH].
  constructor; [exact IH|]. apply List.Forall_forall. intros it Hit. cbn [snd].
  exact (proj1 (List.Forall_forall _ _) Hp _ (classify_paths _ _ Hit)).
Qed.

Lemma glob_exists fs d p : In p (Fs.glob_md fs d) -> Fs.exists_ fs p = true.
Proof.
  unfold Fs.glob_md, Fs.exists_. intros H. apply filter_In in H as [H _].
  apply in_app_or in H as [H | H].
  - apply in_map_iff in H as ([q x] & <- & H).
    apply list_elem_of_In, elem_of_map_to_list in H. cbn [fst].
    apply orb_true_intro. left. apply bool_decide_eq_true. eauto.
  - apply list_elem_of_In, elem_of_elements in H.
    apply orb_true_intro. right. apply bool_decide_eq_true. exact H.
Qed.

(** X5: [_discover_pending] yields nothing for a directory that does not
    exist; otherwise it yields, in the order of their paths, exactly the
    entries the directory delivers whose lower-cased name ends in the
    suffix of a level, each with that level.  Every note it yields exists
    and is an entry of the directory with a name ending in [.md]. *)
Theorem discover_pending_spec (found : list string) :
  discover false found = [] /\
  (forall level path,
     In (level, path) (discover true found) <->
     In path found /\ is_level level /\
     Str.endswith ("." +:+ level +:+ ".md") (Str.lower (Fs.name path)) = true) /\
  pending_sorted (discover true found) /\
  (forall fs pending_dir level path,
     In (level, path) (_discover_pending fs pending_dir) ->
     Fs.exists_ fs pending_dir = true /\
     Fs.is_md_child pending_dir path = true /\
     Fs.exists_ fs path = true).
Proof.
  split; [reflexivity|]. split; [|split].
  - intros level path. unfold discover. cbn [negb].
    rewrite classify_in, bump_level_of_iff. split.
    + intros [H1 H2]. split; [|exact H2].
      eapply Permutation_in; [apply sorted_by_perm | exact H1].
    + intros [H1 H2]. split; [|exact H2].
      eapply Permutation_in; [symmetry; apply sorted_by_perm | exact H1].
  - unfold discover. cbn [negb]. apply classify_sorted, sorted_by_sorted.
  - intros fs d level path H. unfold _discover_pending, discover in H.
    destruct (Fs.exists_ fs d) eqn:E; [|destruct H]. cbn [negb] in H.
    apply classify_in in H as [H _].
    apply (Permutation_in _ (sorted_by_perm id _)) in H.
    split; [reflexivity|]. split; [eapply glob_child, H | eapply glob_exists, H].
Qed.

End Discovery.

(** ** Compiled release notes *)

Section CompiledNotes.

Import release.

Lemma lstrip_head s c r : Str.lstrip s = String c r -> Chr.is_space c = false.
Proof.
  induction s as [|a s IH]; cbn [Str.lstrip]; [discriminate|].
  destruct (Chr.is_space a) eqn:E; [exact IH|]. intros H. inversion H; subst. exact E.
Qed.

Lemma strip_head s c r : Str.strip s = String c r -> Chr.is_space c = false.
Proof. apply lstrip_head. Qed.

Lemma strip_keeps_head c r : Chr.is_space c = false -> Str.strip (String c r) <> "".
Proof.
  intros Hc. unfold Str.strip. destruct (rstrip_cons_keep c r Hc) as [r' ->].
  cbn [Str.lstrip]. rewrite Hc. discriminate.
Qed.

(** The sections are the stripped bodies that are not empty, and there is
    none exactly when every note is blank. *)
Lemma sections_of_spec fs paths secs :
  sections_of fs paths = Ok secs ->
  Forall (fun s => exists c r, s = String c r /\ Chr.is_space c = false) secs /\
  (secs = [] <->
   forall p, In p paths -> exists text, _read_text fs p = Ok text /\ Str.strip text = "").
Proof.
  revert secs. induction paths as [|p paths IH]; intros secs H; cbn [sections_of] in H.
  - inversion H; subst. split; [constructor|]. split; [intros _ p []| reflexivity].
  - destruct (_read_text fs p) as [text|e] eqn:Er; [|discriminate H]. cbn in H.
    destruct (sections_of fs paths) as [more|e]; [|discriminate H]. cbn in H.
    destruct (IH more eq_refl) as [Hall Hiff].
    destruct (String.eqb (Str.strip text) "") eqn:Eb; inversion H; subst; clear H.
    + apply String.eqb_eq in Eb. split; [exact Hall|]. rewrite Hiff. split.
      * intros Hp q [<- | Hq]; [eauto | auto].
      * intros Hp q Hq. apply Hp. right. exact Hq.
    + apply String.eqb_neq in Eb. split.
      * constructor; [|exact Hall].
        destruct (Str.strip text) as [|c r] eqn:Es; [congruence|].
        exists c, r. split; [reflexivity | eapply strip_head, Es].
      * split; [discriminate|]. intros Hp. exfalso.
        destruct (Hp p (or_introl eq_refl)) as (text' & Ht & Hs). congruence.
Qed.

Lemma join_head sep c r rest :
  exists r', Str.join sep (String c r :: rest) = String c r'.
Proof. destruct rest; cbn [Str.join]; [eauto|]. rewrite app_cons. eauto. Qed.

(** X6: The compiled notes end in exactly one newline, with no blank before
    it; they are blank exactly when every pending note is blank; and a
    single note that is not blank compiles to its stripped text and a
    newline. *)
Theorem compiled_notes_shape (fs : Fs.t) (pending : list (string * string))
        (notes : string) :
  _compile_release_notes fs pending = Ok notes ->
  (exists body, notes = body +:+ Str.nl /\ ends_clean body) /\
  (Str.strip notes = "" <->
   forall it, In it pending ->
              exists text, _read_text fs (snd it) = Ok text /\ Str.strip text = "") /\
  (forall it text,
     pending = [it] -> _read_text fs (snd it) = Ok text -> Str.strip text <> "" ->
     notes = Str.strip text +:+ Str.nl).
Proof.
  unfold _compile_release_notes.
  destruct (sections_of fs _) as [secs|e] eqn:E; [|discriminate].
  cbn. intros H. inversion H; subst notes; clear H.
  destruct (sections_of_spec _ _ _ E) as [Hall Hiff].
  split; [|split].
  - eexists. split; [reflexivity | apply rstrip_ends_clean].
  - assert (Hblank : Str.strip (Str.rstrip (Str.join separator secs) +:+ Str.nl) = ""
                     <-> secs = []).
    { split.
      - intros Hs. destruct secs as [|s secs]; [reflexivity|]. exfalso.
        apply Forall_cons_1 in Hall as [(c & r & -> & Hc) _].
        destruct (join_head separator c r secs) as [r' Hj]. rewrite Hj in Hs.
        destruct (rstrip_cons_keep c r' Hc) as [r'' Hr]. rewrite Hr, app_cons in Hs.
        exact (strip_keeps_head c _ Hc Hs).
      - intros ->. reflexivity. }
    rewrite Hblank, Hiff. split.
    + intros Hp it Hit. apply Hp. apply in_map_iff. exists it. split; [reflexivity|].
      eapply Permutation_in; [symmetry; apply sorted_by_perm | exact Hit].
    + intros Hp p Hin. apply in_map_iff in Hin as (it & <- & Hit).
      apply Hp. eapply Permutation_in; [apply sorted_by_perm | exact Hit].
  - intros it text -> Hr Hne. cbn in E. rewrite Hr in E. cbn in E.
    apply String.eqb_neq in Hne. rewrite Hne in E. inversion E; subst secs.
    cbn [Str.join]. rewrite (rstrip_clean _ (strip_ends_clean text)). reflexivity.
Qed.

Lemma compiled_notes_shape_witness :
  let fs := Fs.mk {[ "p/a.patch.md" := "  Fixed X  " ]} {[ "p" ]} in
  let notes := "Fixed X" +:+ Str.nl in
  (exists body, notes = body +:+ Str.nl /\ ends_clean body) /\
  (Str.strip notes = "" <->
   forall it, In it [("patch", "p/a.patch.md")] ->
              exists text, _read_text fs (snd it) = Ok text /\ Str.strip text = "") /\
  (forall it text,
     [("patch", "p/a.patch.md")] = [it] -> _read_text fs (snd it) = Ok text ->
     Str.strip text <> "" -> notes = Str.strip text +:+ Str.nl).
Proof.
  cbv zeta.
  apply (compiled_notes_shape
           (Fs.mk {[ "p/a.patch.md" := "  Fixed X  " ]} {[ "p" ]})
           [("patch", "p/a.patch.md")] ("Fixed X" +:+ Str.nl)).
  reflexivity.
Defined.

End CompiledNotes.

(** ** Stamping the version twice *)

Section VersionIdempotent.

Import release.

Variables (version : SemVer.t) (repl : string).

Hypothesis repl_text : repl = version_tag +:+ " " +:+ SemVer.str version.

Lemma go_copy_prefix r x z :
  mem_char Chr.newline x = false ->
  sub_version_go r false O (x +:+ z) = x +:+ sub_version_go r false O z.
Proof.
  induction x as [|c x IH]; [reflexivity|]. cbn [mem_char]. intros H.
  apply orb_false_elim in H as [Hc Hx].
  rewrite !app_cons, go_nomatch by reflexivity. rewrite Hc, (IH Hx). reflexivity.
Qed.

Lemma go_copy_line r c x z :
  mem_char Chr.newline (String c x) = false ->
  version_line_match (String c (x +:+ z)) = None ->
  sub_version_go r true O (String c x +:+ z) = String c x +:+ sub_version_go r false O z.
Proof.
  cbn [mem_char]. intros H Hm. apply orb_false_elim in H as [Hc Hx].
  rewrite !app_cons, go_nomatch by exact Hm. rewrite Hc, (go_copy_prefix _ _ _ Hx). reflexivity.
Qed.

Lemma of_N_head n : exists c r, Str.of_N n = String c r /\ Chr.is_space c = false.
Proof.
  destruct (strict_segment_digits _ (of_N_strict n)) as [Hd Hne].
  destruct (Str.of_N n) as [|c r]; [congruence|]. exists c, r. split; [reflexivity|].
  cbn in Hd. apply andb_prop in Hd as [Hc _]. apply digit_not_space, Hc.
Qed.

Lemma all_digits_no_newline s : spec.all_digits s = true -> mem_char Chr.newline s = false.
Proof.
  induction s as [|c s IH]; [reflexivity|]. cbn. intros H.
  apply andb_prop in H as [Hc Hs]. rewrite (IH Hs), orb_false_r.
  clear -Hc. destruct c as [[] [] [] [] [] [] [] []]; vm_compute in Hc; try discriminate Hc;
    reflexivity.
Qed.

Lemma repl_no_newline : mem_char Chr.newline repl = false.
Proof.
  rewrite repl_text. unfold SemVer.str. rewrite !mem_char_app.
  rewrite !(all_digits_no_newline _ (proj1 (strict_segment_digits _ (of_N_strict _)))).
  reflexivity.
Qed.

(** The stamped version line is no bare version line. *)
Lemma repl_no_match z : version_line_match (repl +:+ z) = None.
Proof.
  rewrite repl_text. unfold SemVer.str.
  destruct (of_N_head (SemVer.major version)) as (c & r & -> & Hc).
  unfold version_line_match. rewrite !app_assoc', startswith_app, drop_app.
  change (" " +:+ ?x) with (String " " x). rewrite app_cons.
  cbn [blanks_to_eol]. rewrite Hc. reflexivity.
Qed.

Lemma go_repl z :
  sub_version_go repl true O (repl +:+ z) = repl +:+ sub_version_go repl false O z.
Proof.
  pose proof (repl_no_match z) as Hm. pose proof repl_no_newline as Hn.
  destruct repl as [|c x] eqn:E; [discriminate repl_text|].
  apply go_copy_line; [exact Hn | exact Hm].
Qed.

Lemma blanks_to_eol_go r rest :
  blanks_to_eol rest = None -> blanks_to_eol (sub_version_go r false O rest) = None.
Proof.
  induction rest as [|a rest IH]; [discriminate|]. cbn [blanks_to_eol]. intros H.
  rewrite go_nomatch by reflexivity. cbn [blanks_to_eol].
  destruct (Chr.is_space a); [|reflexivity].
  destruct (blanks_to_eol rest) as [k|]; [discriminate H|].
  destruct (Chr.eqb a Chr.newline) eqn:Ea; [discriminate H|].
  rewrite (IH eq_refl). reflexivity.
Qed.

(** Where the template has no bare version line, the stamped text has
    none either. *)
Lemma no_match_go r s :
  version_line_match s = None -> version_line_match (sub_version_go r true O s) = None.
Proof.
  intros Hm. unfold version_line_match.
  rewrite (startswith_go r version_tag s true eq_refl Hm).
  destruct (Str.startswith version_tag s) eqn:Hs; [|reflexivity].
  pose proof (startswith_split _ _ Hs) as Hsplit.
  set (rest := Str.drop (String.length version_tag) s) in *.
  assert (Hb : blanks_to_eol rest = None).
  { unfold version_line_match in Hm. rewrite Hs in Hm. fold rest in Hm.
    destruct (blanks_to_eol rest); [discriminate Hm | reflexivity]. }
  assert (E : sub_version_go r true O s = version_tag +:+ sub_version_go r false O rest).
  { rewrite Hsplit at 1. apply (go_copy_line r "-" "-@version" rest eq_refl).
    change (String "-" ("-@version" +:+ rest)) with (version_tag +:+ rest).
    rewrite <- Hsplit. exact Hm. }
  rewrite E, drop_app, (blanks_to_eol_go _ _ Hb). reflexivity.
Qed.

Lemma go_idempotent : forall n s (bol : bool), (String.length s <= n)%nat ->
  sub_version_go repl bol O (sub_version_go repl bol O s) = sub_version_go repl bol O s.
Proof.
  induction n as [|n IH]; intros s bol Hlen.
  - destruct s; [reflexivity | cbn in Hlen; lia].
  - destruct s as [|c r]; [reflexivity|].
    destruct (if bol then version_line_match (String c r) else None) as [k|] eqn:Hm.
    + destruct bol; [|discriminate Hm].
      destruct (go_match repl _ _ Hm) as (Hgo & Hy & w & Hs & Hw).
      rewrite Hgo, go_repl. f_equal. apply IH.
      apply (f_equal String.length) in Hs. rewrite !length_app in Hs.
      cbn in Hs, Hlen. lia.
    + assert (Hm' : (if bol then version_line_match (sub_version_go repl bol O (String c r))
                     else None) = None).
      { destruct bol; [apply no_match_go, Hm | reflexivity]. }
      rewrite (go_nomatch _ _ _ _ Hm) in *.
      rewrite (go_nomatch _ _ _ _ Hm'). f_equal. apply IH. cbn in Hlen. lia.
Qed.

Lemma no_bare_prefix x z :
  mem_char Chr.newline x = false ->
  no_bare_version_line false z -> no_bare_version_line false (x +:+ z).
Proof.
  induction x as [|c x IH]; [auto|]. cbn [mem_char]. intros H Hz.
  apply orb_false_elim in H as [Hc Hx]. rewrite app_cons. cbn [no_bare_version_line].
  split; [discriminate|]. rewrite Hc. apply IH; assumption.
Qed.

Lemma no_bare_any_eol (b b' : bool) z :
  at_eol z -> no_bare_version_line b z -> no_bare_version_line b' z.
Proof.
  destruct z as [|c z]; [auto|]. cbn [no_bare_version_line]. intros Hz [_ H].
  split; [|exact H]. intros _. apply (match_at_eol (String c z) Hz).
Qed.

Lemma no_bare_go : forall n s (bol : bool), (String.length s <= n)%nat ->
  no_bare_version_line bol (sub_version_go repl bol O s).
Proof.
  induction n as [|n IH]; intros s bol Hlen.
  - destruct s; [exact I | cbn in Hlen; lia].
  - destruct s as [|c r]; [exact I|].
    destruct (if bol then version_line_match (String c r) else None) as [k|] eqn:Hm.
    + destruct bol; [|discriminate Hm].
      destruct (go_match repl _ _ Hm) as (Hgo & Hy & w & Hs & Hw).
      rewrite Hgo.
      assert (Hz : no_bare_version_line false (sub_version_go repl false O (Str.drop k (String c r)))).
      { apply IH. apply (f_equal String.length) in Hs. rewrite !length_app in Hs.
        cbn in Hs, Hlen. lia. }
      pose proof (repl_no_match (sub_version_go repl false O (Str.drop k (String c r)))) as Hr.
      pose proof repl_no_newline as Hn.
      destruct repl as [|a x] eqn:E; [discriminate repl_text|].
      cbn [mem_char] in Hn. apply orb_false_elim in Hn as [Ha Hx].
      rewrite app_cons in *. cbn [no_bare_version_line]. split; [intros _; exact Hr|].
      rewrite Ha. apply no_bare_prefix; assumption.
    + assert (Hm' : bol = true ->
                    version_line_match (sub_version_go repl bol O (String c r)) = None).
      { intros ->. apply no_match_go, Hm. }
      rewrite (go_nomatch _ _ _ _ Hm) in *. cbn [no_bare_version_line].
      split; [exact Hm'|]. apply IH. cbn in Hlen. lia.
Qed.

Lemma go_fixed r : forall s (bol : bool),
  no_bare_version_line bol s -> sub_version_go r bol O s = s.
Proof.
  induction s as [|c s IH]; intros bol H; [reflexivity|].
  cbn [no_bare_version_line] in H. destruct H as [Hm Hs].
  rewrite go_nomatch; [rewrite (IH _ Hs); reflexivity|].
  destruct bol; [apply Hm; reflexivity | reflexivity].
Qed.

End VersionIdempotent.

Section VersionIdempotentClaim.

Import release.

(** X7: Stamping the version is idempotent: the stamped text holds no bare
    version line any more, a text without bare version line is left as it
    is, and so stamping a second time changes nothing. *)
Theorem sub_version_idempotent (version : SemVer.t) (template : string) :
  no_bare_version_line true (sub_version version template) /\
  (no_bare_version_line true template -> sub_version version template = template) /\
  sub_version version (sub_version version template) = sub_version version template.
Proof.
  split; [|split].
  - apply (no_bare_go version _ eq_refl (String.length template)). reflexivity.
  - apply go_fixed.
  - apply (go_idempotent version _ eq_refl (String.length template)). reflexivity.
Qed.

End VersionIdempotentClaim.

(** ** Entries of the provides block *)

Section Entries.

Import reapack_publish.

Lemma split_ws_tokens s : Forall is_token (Str.split_ws s).
Proof.
  induction s as [|c r IH]; cbn [Str.split_ws]; [constructor|].
  destruct (Chr.is_space c) eqn:Ec; [exact IH|].
  assert (Hone : is_token (String c "")).
  { split; [discriminate|]. cbn. rewrite Ec. reflexivity. }
  destruct r as [|c' r'] eqn:Er; [constructor; [exact Hone | constructor]|].
  destruct (Chr.is_space c') eqn:Ec'; [constructor; assumption|].
  destruct (Str.split_ws (String c' r')) as [|t ts]; [constructor; [exact Hone | constructor]|].
  apply Forall_cons_1 in IH as [[Ht1 Ht2] Hts].
  constructor; [|exact Hts]. split; [discriminate|]. cbn. rewrite Ec, Ht2. reflexivity.
Qed.

Lemma index0_token s t : index0 (Str.split_ws s) = Ok t -> is_token t /\ In t (Str.split_ws s).
Proof.
  pose proof (split_ws_tokens s) as H.
  destruct (Str.split_ws s) as [|x xs]; [discriminate|].
  intros E. inversion E; subst. apply Forall_cons_1 in H as [H _]. split; [exact H | left; reflexivity].
Qed.

(** The tokens are made of characters of the text. *)
Lemma split_ws_chars a s : mem_char a s = false ->
  Forall (fun t => mem_char a t = false) (Str.split_ws s).
Proof.
  induction s as [|c r IH]; cbn [Str.split_ws mem_char]; [constructor|].
  intros H. apply orb_false_elim in H as [Hc Hr]. specialize (IH Hr).
  assert (Hone : mem_char a (String c "") = false) by (cbn; rewrite Hc; reflexivity).
  destruct (Chr.is_space c); [exact IH|].
  destruct r as [|c' r'] eqn:Er; [constructor; [exact Hone | constructor]|].
  destruct (Chr.is_space c'); [constructor; assumption|].
  destruct (Str.split_ws (String c' r')) as [|t ts]; [constructor; [exact Hone | constructor]|].
  apply Forall_cons_1 in IH as [Ht Hts].
  constructor; [|exact Hts]. cbn [mem_char]. rewrite Hc, Ht. reflexivity.
Qed.

Lemma split_once_left a s l r : Str.split_once a s = Some (l, r) -> mem_char a l = false.
Proof.
  revert l r. induction s as [|c s IH]; intros l r; cbn [Str.split_once]; [discriminate|].
  destruct (Chr.eqb c a) eqn:E.
  - intros H. inversion H. reflexivity.
  - destruct (Str.split_once a s) as [[l' r']|]; [|discriminate].
    intros H. injection H as <- <-. cbn [mem_char]. rewrite E. exact (IH l' r' eq_refl).
Qed.

Lemma split_once_none a s : Str.split_once a s = None -> mem_char a s = false.
Proof.
  induction s as [|c s IH]; cbn [Str.split_once mem_char]; [reflexivity|].
  destruct (Chr.eqb c a); [discriminate|].
  destruct (Str.split_once a s) as [[l r]|]; [discriminate|]. intros _. exact (IH eq_refl).
Qed.

Lemma mem_char_lstrip a s : mem_char a s = false -> mem_char a (Str.lstrip s) = false.
Proof.
  induction s as [|c s IH]; [reflexivity|]. cbn [Str.lstrip].
  destruct (Chr.is_space c); [|auto]. cbn [mem_char]. intros H.
  apply orb_false_elim in H as [_ H]. exact (IH H).
Qed.

Lemma mem_char_rstrip a s : mem_char a s = false -> mem_char a (Str.rstrip s) = false.
Proof.
  induction s as [|c s IH]; [reflexivity|]. cbn [mem_char Str.rstrip]. intros H.
  apply orb_false_elim in H as [Hc Hs]. specialize (IH Hs).
  destruct (Str.rstrip s) as [|b t].
  - destruct (Chr.is_space c); [reflexivity|]. cbn. rewrite Hc. reflexivity.
  - cbn [mem_char] in *. rewrite Hc, IH. reflexivity.
Qed.

Lemma mem_char_strip a s : mem_char a s = false -> mem_char a (Str.strip s) = false.
Proof. intros H. apply mem_char_lstrip, mem_char_rstrip, H. Qed.

Lemma entry_well_formed content entry :
  entry_of_body content = Ok (Some entry) ->
  well_formed entry /\
  (mem_char ">" (Str.strip (strip_options (Str.strip content))) = false ->
   source entry = target entry).
Proof.
  unfold entry_of_body. destruct (String.eqb _ _); [discriminate|].
  set (body := Str.strip (strip_options (Str.strip content))).
  destruct (Str.split_once ">" body) as [[lhs rhs]|] eqn:Es.
  - destruct (index0 (Str.split_ws (Str.strip lhs))) as [src|] eqn:E1; [|discriminate].
    destruct (index0 (Str.split_ws (Str.strip rhs))) as [tgt|] eqn:E2; [|discriminate].
    cbn. intros H. inversion H; subst entry; clear H.
    apply index0_token in E1 as [H1 Hin], E2 as [H2 _].
    split.
    + repeat split; try apply H1; try apply H2. cbn [source].
      pose proof (split_ws_chars ">" _ (mem_char_strip _ _ (split_once_left _ _ _ _ Es))) as Hc.
      exact (proj1 (List.Forall_forall _ _) Hc _ Hin).
    + intros Hn. exfalso. clear -Es Hn.
      revert lhs rhs Es. induction body as [|c b IH]; intros lhs rhs Es; [discriminate Es|].
      cbn [mem_char Str.split_once] in *. apply orb_false_elim in Hn as [Hc Hb].
      rewrite Hc in Es. destruct (Str.split_once ">" b) as [[l' r']|]; [|discriminate Es].
      exact (IH Hb l' r' eq_refl).
  - destruct (Str.split_ws body) as [|p ps] eqn:Ew; [discriminate|].
    intros H. inversion H; subst entry; clear H. cbn [source target].
    pose proof (split_ws_tokens body) as Ht. rewrite Ew in Ht.
    apply Forall_cons_1 in Ht as [Ht _].
    pose proof (split_ws_chars ">" body (split_once_none _ _ Es)) as Hc. rewrite Ew in Hc.
    apply Forall_cons_1 in Hc as [Hc _].
    split; [repeat split; try apply Ht; exact Hc | reflexivity].
Qed.

Lemma mem_char_drop a n s : mem_char a s = false -> mem_char a (Str.drop n s) = false.
Proof.
  revert s. induction n as [|n IH]; intros s H; [exact H|].
  destruct s as [|c s]; [reflexivity|]. cbn [Str.drop]. cbn [mem_char] in H.
  apply orb_false_elim in H as [_ H]. exact (IH s H).
Qed.

Lemma mem_char_upto a s : mem_char a s = false -> mem_char a (fst (upto_newline s)) = false.
Proof.
  induction s as [|c s IH]; [reflexivity|]. cbn [upto_newline mem_char]. intros H.
  apply orb_false_elim in H as [Hc Hs]. specialize (IH Hs).
  destruct (Chr.eqb c Chr.newline); [reflexivity|].
  destruct (upto_newline s) as [x t]. cbn [fst mem_char] in *. rewrite Hc, IH. reflexivity.
Qed.

Lemma mem_char_body a raw body :
  PROVIDES_LINE_RE raw = Some body -> mem_char a raw = false ->
  mem_char a (Str.strip (strip_options (Str.strip body))) = false.
Proof.
  unfold PROVIDES_LINE_RE, after_comment_prefix. intros H Hraw.
  destruct (Str.startswith "--" (Str.lstrip raw)); [|discriminate H].
  cbn in H. unfold body_to_end in H.
  pose proof (mem_char_upto a _ (mem_char_lstrip a _
    (mem_char_drop a 2 _ (mem_char_lstrip a _ Hraw)))) as Hb.
  destruct (upto_newline _) as [x t]. cbn [fst] in Hb.
  destruct (release.at_end t); [|discriminate H]. injection H as <-.
  apply mem_char_strip. unfold strip_options.
  pose proof (mem_char_strip a _ Hb) as Hs.
  destruct (Str.startswith "[" (Str.strip x)); [|exact Hs].
  destruct (Str.find "]" (Str.strip x)) as [end_|]; [|exact Hs].
  apply mem_char_strip, mem_char_drop, Hs.
Qed.

Lemma run_entries (P : ProvidesEntry -> Prop) lines :
  forall st,
    (forall raw body entry, In raw lines -> PROVIDES_LINE_RE raw = Some body ->
       entry_of_body body = Ok (Some entry) -> P entry) ->
    (forall b es, st = Running b es -> Forall P es) ->
    (forall es, st = Broke es -> Forall P es) ->
    forall es, finish (run st lines) = Ok es -> Forall P es.
Proof.
  induction lines as [|raw lines IH]; intros st HP H1 H2 es Hf.
  - destruct st as [b es'|es'|e]; cbn in Hf; inversion Hf; subst; eauto.
  - cbn [run fold_left] in Hf. apply (IH (step st raw)); [| | |exact Hf].
    + intros raw' body entry Hin. apply HP. right. exact Hin.
    + intros b es' Hs. destruct st as [b0 es0|es0|e]; cbn [step] in Hs; try discriminate.
      specialize (H1 _ _ eq_refl).
      destruct (PROVIDES_START_RE raw); [inversion Hs; subst; exact H1|].
      destruct (negb b0); [inversion Hs; subst; exact H1|].
      destruct (DIRECTIVE_LINE_RE raw); [discriminate|].
      destruct (PROVIDES_LINE_RE raw) as [body|] eqn:Eb; [|inversion Hs; subst; exact H1].
      destruct (entry_of_body body) as [[entry|]|e] eqn:E; inversion Hs; subst; [|exact H1].
      apply Forall_app. split; [exact H1|]. constructor; [|constructor].
      apply (HP raw body entry); [left; reflexivity | exact Eb | exact E].
    + intros es' Hs. destruct st as [b0 es0|es0|e]; cbn [step] in Hs; try discriminate.
      * specialize (H1 _ _ eq_refl).
        destruct (PROVIDES_START_RE raw); [discriminate|].
        destruct (negb b0); [discriminate|].
        destruct (DIRECTIVE_LINE_RE raw); [inversion Hs; subst; exact H1|].
        destruct (PROVIDES_LINE_RE raw) as [body|]; [|discriminate].
        destruct (entry_of_body body) as [[entry|]|e]; discriminate.
      * inversion Hs; subst. exact (H2 _ eq_refl).
Qed.

(** X8: Every entry [_parse_provides] returns is made from a comment line of
    the text; its source and its target are not empty and hold no blank,
    its source holds no [>], and when the line holds no [>] the target is
    the source. *)
Theorem parsed_entries_well_formed (text : string) (entries : list ProvidesEntry) :
  parse_text text = Ok entries ->
  Forall (fun entry =>
            well_formed entry /\
            made_from (Str.split_char Chr.newline text) entry) entries.
Proof.
  unfold parse_text. intros H.
  eapply (run_entries _ (Str.split_char Chr.newline text)); [| | |exact H].
  - intros raw body entry Hin Eb E. cbn beta.
    destruct (entry_well_formed _ _ E) as [Hw Hs].
    split; [exact Hw|]. exists raw, body. repeat split; try assumption.
    intros Hraw. apply Hs. exact (mem_char_body ">" raw body Eb Hraw).
  - intros b es E. inversion E. constructor.
  - discriminate.
Qed.

Lemma parsed_entries_well_formed_witness :
  let text := document ["-- @provides"; "--   [main] XY_Pad/a.lua";
                        "--   XY_Pad/b.lua   >  Tools/b.lua  extra"] in
  Forall (fun entry =>
            well_formed entry /\
            made_from (Str.split_char Chr.newline text) entry)
         [mkEntry "XY_Pad/a.lua" "XY_Pad/a.lua" false;
          mkEntry "XY_Pad/b.lua" "Tools/b.lua" false].
Proof.
  cbv zeta.
  apply (parsed_entries_well_formed
           (document ["-- @provides"; "--   [main] XY_Pad/a.lua";
                      "--   XY_Pad/b.lua   >  Tools/b.lua  extra"])).
  reflexivity.
Defined.

(** *** Before the opening tag *)

Lemma run_outside entries lines :
  Forall (fun raw => PROVIDES_START_RE raw = false) lines ->
  run (Running false entries) lines = Running false entries.
Proof.
  induction 1 as [|raw lines Hraw _ IH]; [reflexivity|].
  cbn [run fold_left step]. rewrite Hraw. cbn [negb]. exact IH.
Qed.

(** X9: Whatever precedes the first opening tag is ignored, directives and
    entry-like lines included; and a text without opening tag has no
    entry. *)
Theorem before_opening_tag_ignored (before rest : list string) :
  Forall (fun raw => PROVIDES_START_RE raw = false) before ->
  are_lines (before ++ rest) ->
  (rest <> [] ->
   parse_text (document (before ++ rest)) = parse_text (document rest)) /\
  (before <> [] -> parse_text (document before) = Ok []).
Proof.
  intros Hb Hl. pose proof Hl as Hl'. apply Forall_app in Hl' as [Hlb Hlr].
  split.
  - intros Hne. unfold parse_text.
    rewrite !split_document; auto; [|destruct before; [exact Hne | discriminate]].
    rewrite run_app, (run_outside _ _ Hb). reflexivity.
  - intros Hne. unfold parse_text. rewrite split_document by assumption.
    rewrite (run_outside _ _ Hb). reflexivity.
Qed.

Lemma before_opening_tag_ignored_witness :
  let before := ["-- @description XY Pad"; "--   XY_Pad/ignored.lua"] in
  let rest := ["-- @provides"; "--   XY_Pad/a.lua"] in
  (rest <> [] ->
   parse_text (document (before ++ rest)) = parse_text (document rest)) /\
  (before <> [] -> parse_text (document before) = Ok []).
Proof.
  cbv zeta.
  apply (before_opening_tag_ignored
           ["-- @description XY Pad"; "--   XY_Pad/ignored.lua"]
           ["-- @provides"; "--   XY_Pad/a.lua"]).
  - repeat constructor.
  - repeat constructor.
Defined.

End Entries.

(** ** The copy loop *)

Section CopyLoop.

Import reapack_publish.

Variables repo_root fx_dir : string.

Lemma shipped_cases entry :
  shipped entry =
  negb (String.eqb (source entry) "." || String.eqb (target entry) ".")
  && negb (has_url entry) && Str.startswith "XY_Pad/" (source entry).
Proof.
  unfold shipped, skipped.
  destruct (String.eqb (source entry) "."), (String.eqb (target entry) "."),
    (has_url entry); reflexivity.
Qed.

Lemma sync_entry_unshipped st entry :
  shipped entry = false -> sync_entry repo_root fx_dir st entry = (st, Ok tt).
Proof.
  rewrite shipped_cases. unfold sync_entry.
  destruct (String.eqb (source entry) "." || String.eqb (target entry) "."); [reflexivity|].
  destruct (has_url entry); [reflexivity|].
  cbn. intros ->. reflexivity.
Qed.

Lemma sync_entry_shipped st entry :
  shipped entry = true ->
  sync_entry repo_root fx_dir st entry =
  let copy := copy_of repo_root fx_dir entry in
  if negb (Fs.exists_ (sync_fs st) (fst copy))
  then (st, Raise (Publish (ProvidesFileMissing (source entry) (fst copy))))
  else
    match _copy_file (sync_fs st) (fst copy) (snd copy) with
    | (fs', Raise e) => (mkSync fs' (sync_copies st ++ [copy]) (copied st), Raise e)
    | (fs', Ok _) =>
        (mkSync fs' (sync_copies st ++ [copy]) (copied st ++ [dst_rel entry]), Ok tt)
    end.
Proof.
  rewrite shipped_cases. unfold sync_entry.
  destruct (String.eqb (source entry) "." || String.eqb (target entry) "."); [discriminate|].
  destruct (has_url entry); [discriminate|].
  cbn [negb andb]. intros ->. reflexivity.
Qed.

Lemma sync_entries_app before rest : forall st,
  sync_entries repo_root fx_dir st (before ++ rest) =
  match sync_entries repo_root fx_dir st before with
  | (st', Raise e) => (st', Raise e)
  | (st', Ok _) => sync_entries repo_root fx_dir st' rest
  end.
Proof.
  induction before as [|entry before IH]; intros st; [reflexivity|].
  cbn [sync_entries app].
  destruct (sync_entry repo_root fx_dir st entry) as [st' [[]|e]]; [apply IH | reflexivity].
Qed.

Lemma sync_entries_ok entries : forall st st',
  sync_entries repo_root fx_dir st entries = (st', Ok tt) ->
  copied st' = (copied st ++ map dst_rel (List.filter shipped entries))%list /\
  sync_copies st' =
    (sync_copies st ++ map (copy_of repo_root fx_dir) (List.filter shipped entries))%list.
Proof.
  induction entries as [|entry entries IH]; intros st st' H.
  - cbn in H. inversion H; subst. cbn. rewrite !app_nil_r. auto.
  - cbn [sync_entries List.filter] in *. destruct (shipped entry) eqn:Es.
    + rewrite (sync_entry_shipped st entry Es) in H. cbv zeta in H.
      destruct (negb _); [discriminate H|].
      destruct (_copy_file _ _ _) as [fs' [[]|e]]; [|discriminate H].
      destruct (IH _ _ H) as [H1 H2]. cbn [copied sync_copies] in H1, H2.
      rewrite H1, H2, <- !app_assoc. auto.
    + rewrite (sync_entry_unshipped st entry Es) in H. exact (IH _ _ H).
Qed.



(** *** What the copies leave in place *)



End CopyLoop.

Section CopyLoopFacts.

Import reapack_publish.

(** X10: When the loop of [cmd_sync] ends without error, [copied] has grown by
    the destination of every entry that is not passed over and whose
    source begins with [XY_Pad/], in the order of the entries, and the
    copy instructions are those of the same entries; the count
    [cmd_sync] prints is the number of these entries. *)
Theorem sync_reports_shipped
        (repo_root fx_dir : string) (st st' : sync_state) (entries : list ProvidesEntry) :
  sync_entries repo_root fx_dir st entries = (st', Ok tt) ->
  copied st' = (copied st ++ map dst_rel (List.filter shipped entries))%list /\
  sync_copies st' =
    (sync_copies st ++ map (copy_of repo_root fx_dir) (List.filter shipped entries))%list /\
  List.length (copied st') =
    (List.length (copied st) + List.length (List.filter shipped entries))%nat.
Proof.
  intros H. destruct (sync_entries_ok repo_root fx_dir entries st st' H) as [H1 H2].
  repeat split; [exact H1 | exact H2|].
  rewrite H1, List.length_app, List.length_map. reflexivity.
Qed.

Lemma sync_reports_shipped_witness :
  let fs := Fs.mk {[ "/repo/XY_Pad/a.lua" := "return 1" ]} {[ "/repo"; "/repo/XY_Pad" ]} in
  let entries := [mkEntry "." "." false;
                  mkEntry "XY_Pad/a.lua" "Tools/" false;
                  mkEntry "Other/b.lua" "b.lua" false;
                  mkEntry "XY_Pad/c.lua" "c.lua" true] in
  let st' := fst (sync_entries "/repo" "/scripts/FX" (mkSync fs [] []) entries) in
  copied st' = ([] ++ map dst_rel (List.filter shipped entries))%list /\
  sync_copies st' =
    ([] ++ map (copy_of "/repo" "/scripts/FX") (List.filter shipped entries))%list /\
  List.length (copied st') =
    (0 + List.length (List.filter shipped entries))%nat.
Proof.
  cbv zeta.
  apply (sync_reports_shipped "/repo" "/scripts/FX"
           (mkSync (Fs.mk {[ "/repo/XY_Pad/a.lua" := "return 1" ]}
                          {[ "/repo"; "/repo/XY_Pad" ]}) [] [])).
  vm_compute. reflexivity.
Defined.



(** X13: A shipped entry whose source file is missing ends the loop with
    [ReaPackPublishError]: the entries after it are not looked at, and
    what the entries before it copied stays copied. *)
Theorem sync_stops_at_missing
        (repo_root fx_dir : string) (st st1 : sync_state)
        (before rest : list ProvidesEntry) (entry : ProvidesEntry) :
  sync_entries repo_root fx_dir st before = (st1, Ok tt) ->
  shipped entry = true ->
  Fs.exists_ (sync_fs st1) (Fs.join repo_root (source entry)) = false ->
  sync_entries repo_root fx_dir st (before ++ entry :: rest) =
  (st1, Raise (Publish (ProvidesFileMissing (source entry)
                          (Fs.join repo_root (source entry))))).
Proof.
  intros Hb Hs He. rewrite sync_entries_app, Hb. cbn [sync_entries].
  rewrite (sync_entry_shipped repo_root fx_dir st1 entry Hs). cbv zeta.
  cbn [copy_of fst]. rewrite He. reflexivity.
Qed.

Lemma sync_stops_at_missing_witness :
  let fs := Fs.mk {[ "/repo/XY_Pad/a.lua" := "return 1" ]} {[ "/repo"; "/repo/XY_Pad" ]} in
  let st1 := fst (sync_entries "/repo" "/scripts/FX" (mkSync fs [] [])
                    [mkEntry "XY_Pad/a.lua" "a.lua" false]) in
  sync_entries "/repo" "/scripts/FX" (mkSync fs [] [])
    ([mkEntry "XY_Pad/a.lua" "a.lua" false]
       ++ mkEntry "XY_Pad/gone.lua" "gone.lua" false
       :: [mkEntry "XY_Pad/a.lua" "again.lua" false]) =
  (st1, Raise (Publish (ProvidesFileMissing "XY_Pad/gone.lua" "/repo/XY_Pad/gone.lua"))).
Proof.
  cbv zeta.
  apply (sync_stops_at_missing "/repo" "/scripts/FX"
           (mkSync (Fs.mk {[ "/repo/XY_Pad/a.lua" := "return 1" ]}
                          {[ "/repo"; "/repo/XY_Pad" ]}) [] [])
           _ [mkEntry "XY_Pad/a.lua" "a.lua" false]
           [mkEntry "XY_Pad/a.lua" "again.lua" false]
           (mkEntry "XY_Pad/gone.lua" "gone.lua" false)).
  - vm_compute. reflexivity.
  - reflexivity.
  - vm_compute. reflexivity.
Defined.

End CopyLoopFacts.

(** ** The prepare command *)

Section Prepare.

Import release spec.




Lemma replace_crlf_id s : mem_char Chr.cr s = false -> Str.replace_crlf s = s.
Proof.
  induction s as [|a s IH]; [reflexivity|]. cbn [mem_char]. intros H.
  apply orb_false_elim in H as [Ha Hs]. specialize (IH Hs).
  cbn [Str.replace_crlf]. destruct s as [|b s]; [reflexivity|].
  rewrite Ha. cbn [andb]. rewrite IH. reflexivity.
Qed.





(** *** Removing the pending notes *)

Lemma unlink_all_ok pending : forall fs fs',
  unlink_all fs pending = (fs', Ok tt) ->
  (forall p, In p (map snd pending) -> Fs.files fs' !! p = None) /\
  (forall q, ~ In q (map snd pending) -> Fs.files fs' !! q = Fs.files fs !! q) /\
  Fs.dirs fs' = Fs.dirs fs.
Proof.
  induction pending as [|[level path] pending IH]; intros fs fs' H.
  - cbn in H. inversion H; subst.
    split; [intros p [] | split; [intros; reflexivity | reflexivity]].
  - cbn [unlink_all] in H. unfold Fs.unlink in H.
    destruct (Fs.files fs !! path) as [content|] eqn:E.
    + destruct (IH _ _ H) as (H1 & H2 & H3). cbn [Fs.files Fs.dirs] in H2, H3.
      repeat split; [| |exact H3].
      * intros p [<- | Hp]; [|apply H1, Hp]. cbn [snd].
        destruct (in_dec string_dec path (map snd pending)) as [Hin | Hout];
          [apply H1, Hin|].
        rewrite (H2 _ Hout). apply lookup_delete_eq.
      * intros q Hq. cbn [map snd] in Hq.
        rewrite H2 by (intros Hin; apply Hq; right; exact Hin).
        apply lookup_delete_ne. intros <-. apply Hq. left. reflexivity.
    + destruct (Fs.is_dir fs path); [discriminate H|].
      destruct (IH _ _ H) as (H1 & H2 & H3).
      repeat split; [| |exact H3].
      * intros p [<- | Hp]; [|apply H1, Hp]. cbn [snd].
        destruct (in_dec string_dec path (map snd pending)) as [Hin | Hout];
          [apply H1, Hin|].
        rewrite (H2 _ Hout). exact E.
      * intros q Hq. apply H2. intros Hin. apply Hq. right. exact Hin.
Qed.

Lemma unlink_all_total pending : forall fs,
  Forall (fun it => Fs.is_dir fs (snd it) = false) pending ->
  exists fs', unlink_all fs pending = (fs', Ok tt).
Proof.
  induction pending as [|[level path] pending IH]; intros fs H; [eexists; reflexivity|].
  apply Forall_cons_1 in H as [Hd H]. cbn [snd] in Hd.
  cbn [unlink_all]. unfold Fs.unlink.
  destruct (Fs.files fs !! path) as [content|].
  - apply IH. exact H.
  - rewrite Hd. apply IH. exact H.
Qed.

End Prepare.

Section PrepareFacts.

Import release spec.

(** X14: The loop that removes the pending notes ends without error whenever
    no path of the list is a directory, missing files and repeated paths
    included; afterwards none of the paths is a file, every other file is
    as it was, and the directories are the same. *)
Theorem unlink_all_removes (fs : Fs.t) (pending : list (string * string)) :
  Forall (fun it => Fs.is_dir fs (snd it) = false) pending ->
  exists fs',
    unlink_all fs pending = (fs', Ok tt) /\
    (forall p, In p (map snd pending) -> Fs.files fs' !! p = None) /\
    (forall q, ~ In q (map snd pending) -> Fs.files fs' !! q = Fs.files fs !! q) /\
    Fs.dirs fs' = Fs.dirs fs.
Proof.
  intros H. destruct (unlink_all_total pending fs H) as [fs' E].
  exists fs'. split; [exact E|]. exact (unlink_all_ok pending fs fs' E).
Qed.

Lemma unlink_all_removes_witness :
  let fs := Fs.mk {[ "p/a.patch.md" := "Fixed X"; "keep.txt" := "kept" ]} {[ "p" ]} in
  let pending := [("patch", "p/a.patch.md"); ("minor", "p/gone.minor.md");
                  ("patch", "p/a.patch.md")] in
  exists fs',
    unlink_all fs pending = (fs', Ok tt) /\
    (forall p, In p (map snd pending) -> Fs.files fs' !! p = None) /\
    (forall q, ~ In q (map snd pending) -> Fs.files fs' !! q = Fs.files fs !! q) /\
    Fs.dirs fs' = Fs.dirs fs.
Proof.
  cbv zeta.
  apply (unlink_all_removes
           (Fs.mk {[ "p/a.patch.md" := "Fixed X"; "keep.txt" := "kept" ]} {[ "p" ]})
           [("patch", "p/a.patch.md"); ("minor", "p/gone.minor.md");
            ("patch", "p/a.patch.md")]).
  repeat constructor.
Defined.








End PrepareFacts.

(** ** Reading text *)

Section ReadText.

Lemma universal_newlines_no_cr s : mem_char Chr.cr (Str.universal_newlines s) = false.
Proof.
  assert (H : forall n s, (String.length s <= n)%nat ->
                          mem_char Chr.cr (Str.universal_newlines s) = false).
  { induction n as [|n IH]; intros [|a t] Hn; try reflexivity; [cbn in Hn; lia|].
    cbn [String.length] in Hn. cbn [Str.universal_newlines].
    destruct (Chr.eqb a Chr.cr) eqn:Ea.
    - destruct t as [|b t']; [reflexivity|].
      destruct (Chr.eqb b Chr.newline); cbn [mem_char];
        (rewrite IH; [reflexivity | cbn [String.length] in *; lia]).
    - cbn [mem_char]. rewrite Ea. apply IH. lia. }
  exact (H (String.length s) s (le_n _)).
Qed.

(** X18: [_read_text], the same function in both scripts, gives the text
    of the file as text mode delivers it, which holds no carriage
    return: the replacement of [\r\n] that follows finds nothing to
    replace. *)
Theorem read_text_no_carriage_return (fs : Fs.t) (path text : string) :
  release._read_text fs path = Ok text ->
  reapack_publish._read_text fs path = Ok text /\
  mem_char Chr.cr text = false /\
  Fs.read fs path = Ok text /\
  Str.replace_crlf text = text.
Proof.
  unfold release._read_text, reapack_publish._read_text, Fs.read.
  destruct (Fs.files fs !! path) as [content|]; cbn.
  - rewrite (replace_crlf_id _ (universal_newlines_no_cr content)).
    intros H. inversion H; subst text.
    rewrite (replace_crlf_id _ (universal_newlines_no_cr content)).
    repeat split. apply universal_newlines_no_cr.
  - destruct (Fs.is_dir fs path); discriminate.
Qed.

Lemma read_text_no_carriage_return_witness :
  let fs := Fs.mk {[ "notes.md" := "Fixed X" +:+ String Chr.cr (String Chr.newline "Added Y")
                                   +:+ String Chr.cr "" ]} ∅ in
  let text := "Fixed X" +:+ Str.nl +:+ "Added Y" +:+ Str.nl in
  reapack_publish._read_text fs "notes.md" = Ok text /\
  mem_char Chr.cr text = false /\
  Fs.read fs "notes.md" = Ok text /\
  Str.replace_crlf text = text.
Proof.
  cbv zeta.
  apply (read_text_no_carriage_return
           (Fs.mk {[ "notes.md" := "Fixed X" +:+ String Chr.cr (String Chr.newline "Added Y")
                                    +:+ String Chr.cr "" ]} ∅)
           "notes.md" ("Fixed X" +:+ Str.nl +:+ "Added Y" +:+ Str.nl)).
  vm_compute. reflexivity.
Defined.

End ReadText.
